(** * Maker.Point: the 2D point primitives of maker.js (src/point.ts)

    A shallow embedding of the module [Maker.Point] in a small model of the
    JavaScript it compiles to: dynamically typed values, a heap of objects
    addressed by reference, and calls that either return or throw.

    Numbers are idealised: a finite number is a real, and the three
    non-finite numbers NaN, +Infinity and -Infinity are kept as values of
    their own (rounding, overflow and the sign of zero are not modelled).
    What is proved of the module uses of this arithmetic only what the
    binary64 arithmetic of the implementation has too. The one exception
    says so: the round trip of [Subtract] and [Add], exact over the reals,
    is set against the same computation in binary64 ([Add64]).

    Objects are data objects that convert to a primitive, as plain objects
    and Arrays do. An object that has no conversion makes an arithmetic
    operator throw; such operands are kept out by hypothesis
    ([plain_inputs]) where a call is said to return. *)

From Stdlib Require Import Reals Lra Floats.
From stdpp Require Import gmap strings list.

(** ** Numbers *)

Inductive number : Type :=
  | Fin (r : R)
  | NaN
  | PosInf
  | NegInf.

Inductive sign : Type := Negative | Null | Positive.

Definition Rsign (r : R) : sign :=
  match total_order_T r 0 with
  | inleft (left _) => Negative
  | inleft (right _) => Null
  | inright _ => Positive
  end.

Definition sign_mul (s t : sign) : sign :=
  match s, t with
  | Null, _ | _, Null => Null
  | Positive, Positive | Negative, Negative => Positive
  | _, _ => Negative
  end.

(** The sign of a number, [None] for NaN. *)
Definition num_sign (n : number) : option sign :=
  match n with
  | Fin r => Some (Rsign r)
  | NaN => None
  | PosInf => Some Positive
  | NegInf => Some Negative
  end.

Definition num_neg (n : number) : number :=
  match n with
  | Fin r => Fin (- r)
  | NaN => NaN
  | PosInf => NegInf
  | NegInf => PosInf
  end.

Definition num_add (a b : number) : number :=
  match a, b with
  | Fin x, Fin y => Fin (x + y)
  | NaN, _ | _, NaN => NaN
  | PosInf, NegInf | NegInf, PosInf => NaN
  | PosInf, _ | _, PosInf => PosInf
  | NegInf, _ | _, NegInf => NegInf
  end.

Definition num_sub (a b : number) : number := num_add a (num_neg b).

Definition num_mul (a b : number) : number :=
  match a, b with
  | Fin x, Fin y => Fin (x * y)
  | _, _ =>
      match num_sign a, num_sign b with
      | Some s, Some t =>
          match sign_mul s t with
          | Positive => PosInf
          | Negative => NegInf
          | Null => NaN
          end
      | _, _ => NaN
      end
  end.

(** [Math.cos] and [Math.sin] on a number. *)
Definition num_cos (a : number) : number :=
  match a with Fin x => Fin (cos x) | _ => NaN end.

Definition num_sin (a : number) : number :=
  match a with Fin x => Fin (sin x) | _ => NaN end.

Definition num_is_zero (n : number) : bool :=
  match n with
  | Fin r => if Req_dec_T r 0 then true else false
  | _ => false
  end.

(** ** Values, objects and the heap *)

(** References are positions in the heap. *)
Abbreviation loc := nat (only parsing).

Inductive value : Type :=
  | VUndefined
  | VNull
  | VBool (b : bool)
  | VNumber (n : number)
  | VString (s : string)
  | VObject (l : loc).

(** An object has named properties; an Array has indexed elements too. *)
Record object : Type := Object {
  props : gmap string value;
  elements : option (list value)
}.

Abbreviation heap := (list object) (only parsing).

Inductive exn : Type := TypeError | ExternalError.

(** ** Calls: a heap in, a value and a heap out, or an exception *)

Inductive outcome (A : Type) : Type :=
  | Returns (a : A) (h : heap)
  | Throws (e : exn).
Arguments Returns {A} a h.
Arguments Throws {A} e.

Definition M (A : Type) : Type := heap -> outcome A.

#[global] Instance M_ret : MRet M := λ A a h, Returns a h.

#[global] Instance M_bind : MBind M := λ A B f m h,
  match m h with
  | Returns a h' => f a h'
  | Throws e => Throws e
  end.

Definition gets {A : Type} (f : heap -> A) : M A := λ h, Returns (f h) h.

Definition throw {A : Type} (e : exn) : M A := λ _, Throws e.

(** A call into a collaborator that reads the heap and changes nothing. *)
Definition call {A : Type} (f : heap -> exn + A) : M A := λ h,
  match f h with
  | inl e => Throws e
  | inr a => Returns a h
  end.

(** ** Object primitives *)

(** The literals [{x: vx, y: vy}] and [[v0, v1, ...]]. *)
Definition point_object (vx vy : value) : object :=
  Object {[ "x" := vx; "y" := vy ]} None.

Definition array_object (vs : list value) : object := Object ∅ (Some vs).

Definition alloc (o : object) : M value := λ h,
  Returns (VObject (length h)) (h ++ [o]).

(** The value read by [v.k] for a property name [k] that the prototypes do
    not define (["x"], ["y"], ["origin"], ...): [undefined] when it is
    missing and on a primitive. *)
Definition read_prop (h : heap) (v : value) (k : string) : value :=
  match v with
  | VObject l =>
      match h !! l with
      | Some o => default VUndefined (props o !! k)
      | None => VUndefined
      end
  | _ => VUndefined
  end.

(** [v.k]: a TypeError on [undefined] and [null]. *)
Definition get_prop (v : value) (k : string) : M value :=
  match v with
  | VUndefined | VNull => throw TypeError
  | _ => gets (λ h, read_prop h v k)
  end.

Definition write_prop (h : heap) (l : loc) (k : string) (w : value) : heap :=
  match h !! l with
  | Some o => <[l := Object (<[k := w]> (props o)) (elements o)]> h
  | None => h
  end.

(** [v.k = w]: a TypeError on [undefined] and [null], ignored on the other
    primitives. *)
Definition set_prop (v : value) (k : string) (w : value) : M unit :=
  match v with
  | VUndefined | VNull => throw TypeError
  | VObject l => λ h, Returns tt (write_prop h l k w)
  | _ => mret tt
  end.

(** The elements of [v] when [Array.isArray(v)]. *)
Definition array_elements (h : heap) (v : value) : option (list value) :=
  match v with
  | VObject l => h !! l ≫= elements
  | _ => None
  end.

(** [es[i]], [undefined] out of range. *)
Definition index (es : list value) (i : nat) : value :=
  default VUndefined (es !! i).

Definition longer_than (n : nat) (a : option (list value)) : bool :=
  match a with
  | Some es => bool_decide (n < length es)
  | None => false
  end.

(** A parameter declared with a default value. *)
Definition default_arg (v d : value) : value :=
  match v with VUndefined => d | _ => v end.

(** ** Coercions and operators *)

Definition ToBoolean (v : value) : bool :=
  match v with
  | VUndefined | VNull => false
  | VBool b => b
  | VNumber NaN => false
  | VNumber n => negb (num_is_zero n)
  | VString s => negb (bool_decide (s = ""))
  | VObject _ => true
  end.

Definition is_number (v : value) : bool :=
  match v with VNumber _ => true | _ => false end.

(** Modelled from the spec: [IsPoint] is declared in maker.ts, which is not
    among the sources. The spec gives its meaning: the item "satisfies the
    Point shape (has numeric [x] and [y])". *)
Definition IsPoint (h : heap) (item : value) : bool :=
  is_number (read_prop h item "x") && is_number (read_prop h item "y").

(** What the model leaves to its environment: the primitive an object
    converts to (a string for plain objects and Arrays), the reading of a
    string as a number, the printing of a number; and the collaborators of
    this module, [Angle] and [Measure], which read their arguments and
    return a value or throw. *)
Record host : Type := Host {
  ObjectToString : heap -> loc -> string;
  StringToNumber : string -> number;
  NumberToString : number -> string;
  Angle_ToRadians : heap -> value -> exn + value;
  Angle_FromPointToRadians : heap -> value -> value -> exn + value;
  Measure_PointDistance : heap -> value -> value -> exn + value
}.

Section Point.

Context (env : host).

(** The conversions of an object go through the environment, which answers
    for every object: the TypeError of an object without conversion is
    not modelled. *)
Definition ToPrimitive (h : heap) (v : value) : value :=
  match v with
  | VObject l => VString (ObjectToString env h l)
  | _ => v
  end.

Definition ToNumber (h : heap) (v : value) : number :=
  match v with
  | VUndefined => NaN
  | VNull => Fin 0
  | VBool b => if b then Fin 1 else Fin 0
  | VNumber n => n
  | VString s => StringToNumber env s
  | VObject l => StringToNumber env (ObjectToString env h l)
  end.

Definition ToString (h : heap) (v : value) : string :=
  match v with
  | VUndefined => "undefined"
  | VNull => "null"
  | VBool b => if b then "true" else "false"
  | VNumber n => NumberToString env n
  | VString s => s
  | VObject l => ObjectToString env h l
  end.

Definition is_string (v : value) : bool :=
  match v with VString _ => true | _ => false end.

(** [a + b]: concatenation as soon as one side is a string. *)
Definition js_add (h : heap) (a b : value) : value :=
  let pa := ToPrimitive h a in
  let pb := ToPrimitive h b in
  if is_string pa || is_string pb
  then VString (ToString h pa +:+ ToString h pb)
  else VNumber (num_add (ToNumber h pa) (ToNumber h pb)).

(** [a - b], [a * b] and [-a]: always numbers. *)
Definition js_sub (h : heap) (a b : value) : value :=
  VNumber (num_sub (ToNumber h a) (ToNumber h b)).

Definition js_mul (h : heap) (a b : value) : value :=
  VNumber (num_mul (ToNumber h a) (ToNumber h b)).

Definition js_neg (h : heap) (a : value) : value :=
  VNumber (num_neg (ToNumber h a)).

Definition Math_cos (h : heap) (a : value) : value :=
  VNumber (num_cos (ToNumber h a)).

Definition Math_sin (h : heap) (a : value) : value :=
  VNumber (num_sin (ToNumber h a)).

(** [p.k op= rhs]: read [p.k], evaluate [rhs], combine, write back. *)
Definition update_prop (op : heap -> value -> value -> value)
    (p : value) (k : string) (rhs : M value) : M unit :=
  old ← get_prop p k;
  r ← rhs;
  new ← gets (λ h, op h old r);
  set_prop p k new.

(** ** The module [Maker.Point] *)

Definition Zero : M value :=
  alloc (point_object (VNumber (Fin 0)) (VNumber (Fin 0))).

Definition Clone (point : value) : M value :=
  x ← get_prop point "x";
  y ← get_prop point "y";
  alloc (point_object x y).

(** [arguments] is the list of the values the call passes; [item] is its
    first one, [undefined] when there is none. *)
Definition Ensure (arguments : list value) : M value :=
  let item := index arguments 0 in
  if negb (ToBoolean item) then Zero else
  p ← gets (λ h, IsPoint h item);
  if p : bool then mret item else
  a ← gets (λ h, array_elements h item);
  if longer_than 1 a then
    alloc (point_object (index (default [] a) 0) (index (default [] a) 1))
  else
  if bool_decide (1 < length arguments) then
    alloc (point_object (index arguments 0) (index arguments 0))
  else Zero.

(** [subtract] defaults to [false] when it is [undefined]. *)
Definition Add (a b subtract : value) : M value :=
  let subtract := default_arg subtract (VBool false) in
  e ← Ensure [a];
  p1 ← Clone e;
  p2 ← Ensure [b];
  (if ToBoolean subtract then
     update_prop js_sub p1 "x" (get_prop p2 "x");;
     update_prop js_sub p1 "y" (get_prop p2 "y")
   else
     update_prop js_add p1 "x" (get_prop p2 "x");;
     update_prop js_add p1 "y" (get_prop p2 "y"));;
  mret p1.

Definition FromPolar (angleInRadians radius : value) : M value :=
  x ← gets (λ h, js_mul h radius (Math_cos h angleInRadians));
  y ← gets (λ h, js_mul h radius (Math_sin h angleInRadians));
  alloc (point_object x y).

Definition getPointFromAngle (arc angle : value) : M value :=
  origin ← get_prop arc "origin";
  radians ← call (λ h, Angle_ToRadians env h angle);
  radius ← get_prop arc "radius";
  polar ← FromPolar radians radius;
  Add origin polar VUndefined.

Definition FromArc (arc : value) : M value :=
  startAngle ← get_prop arc "startAngle";
  s ← getPointFromAngle arc startAngle;
  endAngle ← get_prop arc "endAngle";
  e ← getPointFromAngle arc endAngle;
  alloc (array_object [s; e]).

Definition Mirror (point mirrorX mirrorY : value) : M value :=
  e ← Ensure [point];
  p ← Clone e;
  (if ToBoolean mirrorX then
     x ← get_prop p "x";
     n ← gets (λ h, js_neg h x);
     set_prop p "x" n
   else mret tt);;
  (if ToBoolean mirrorY then
     y ← get_prop p "y";
     n ← gets (λ h, js_neg h y);
     set_prop p "y" n
   else mret tt);;
  mret p.

Definition Rotate (point angleInDegrees rotationOrigin : value) : M value :=
  pointAngleInRadians ←
    call (λ h, Angle_FromPointToRadians env h point rotationOrigin);
  d ← call (λ h, Measure_PointDistance env h rotationOrigin point);
  turn ← call (λ h, Angle_ToRadians env h angleInDegrees);
  angle ← gets (λ h, js_add h pointAngleInRadians turn);
  rotatedPoint ← FromPolar angle d;
  Add rotationOrigin rotatedPoint VUndefined.

Definition Scale (point scale : value) : M value :=
  e ← Ensure [point];
  p ← Clone e;
  update_prop js_mul p "x" (mret scale);;
  update_prop js_mul p "y" (mret scale);;
  mret p.

Definition Subtract (a b : value) : M value := Add a b (VBool true).

End Point.

(** ** Vocabulary of the specification *)

(** [v] refers to an object whose [x] and [y] are the numbers [nx], [ny]. *)
Definition point_at (h : heap) (v : value) (nx ny : number) : Prop :=
  read_prop h v "x" = VNumber nx ∧ read_prop h v "y" = VNumber ny.

(** The Point shape: numeric [x] and [y]. *)
Definition PointShape (h : heap) (v : value) : Prop :=
  ∃ nx ny, point_at h v nx ny.

(** A well-formed Point: both coordinates are finite reals. *)
Definition well_formed (h : heap) (v : value) : Prop :=
  ∃ x y : R, point_at h v (Fin x) (Fin y).

(** Every object of [h] is in [h'], at its place and as it was. *)
Definition unchanged (h h' : heap) : Prop := h `prefix_of` h'.

(** [v] is a reference to an object that [h] does not hold yet and [h']
    does: an object created since [h]. *)
Definition created (h : heap) (v : value) (h' : heap) : Prop :=
  ∃ l, v = VObject l ∧ length h ≤ l < length h'.

(** [v] is a reference to an object of [h] with both an [x] and a [y]. *)
Definition has_xy (h : heap) (v : value) : Prop :=
  ∃ l o, v = VObject l ∧ h !! l = Some o
         ∧ is_Some (props o !! "x") ∧ is_Some (props o !! "y").

(** The heap after the literal [{x: vx, y: vy}] and the reference to it. *)
Definition new_point (h : heap) (vx vy : value) : outcome value :=
  Returns (VObject (length h)) (h ++ [point_object vx vy]).

Definition zero : value := VNumber (Fin 0).

(** The object that [Clone(v)] creates in heap [h]. *)
Definition cloned (h : heap) (v : value) : object :=
  point_object (read_prop h v "x") (read_prop h v "y").

(** The test of the third rule of [Ensure], in the words of the spec: "an
    ordered sequence of at least two numbers". *)
Definition sequence_of_two_numbers (h : heap) (item : value) : bool :=
  match array_elements h item with
  | Some es => bool_decide (2 ≤ length es) && forallb is_number es
  | None => false
  end.

(** The same test as the code makes it: an Array longer than one. *)
Definition array_of_two (h : heap) (item : value) : bool :=
  longer_than 1 (array_elements h item).

(** The five rules of [Ensure] in their order of precedence, for a given
    test [rule3] of the third one. *)
Definition Ensure_rules (rule3 : heap -> value -> bool)
    (arguments : list value) (h : heap) : outcome value :=
  let item := index arguments 0 in
  if negb (ToBoolean item) then new_point h zero zero
  else if IsPoint h item then Returns item h
  else if rule3 h item then
    new_point h (index (default [] (array_elements h item)) 0)
                (index (default [] (array_elements h item)) 1)
  else if bool_decide (2 ≤ length arguments) then new_point h item item
  else new_point h zero zero.

(** [v] is what [Ensure] reads as the Point [(nx, ny)]: a falsy value
    (read as the origin), a Point, or an Array, not itself a Point, that
    starts with the two numbers. *)
Definition point_like (h : heap) (v : value) (nx ny : number) : Prop :=
  (ToBoolean v = false ∧ nx = Fin 0 ∧ ny = Fin 0)
  ∨ point_at h v nx ny
  ∨ (IsPoint h v = false
     ∧ ∃ es, array_elements h v = Some es ∧ 1 < length es
             ∧ index es 0 = VNumber nx ∧ index es 1 = VNumber ny).

(** The same with finite coordinates. *)
Definition finite_like (h : heap) (v : value) : Prop :=
  ∃ x y : R, point_like h v (Fin x) (Fin y).

(** A value of the heap [h]: no reference to an object that is not there. *)
Definition in_heap (h : heap) (v : value) : Prop :=
  ∀ l, v = VObject l → l < length h.

(** A new object with an [x] and a [y], and nothing else touched. *)
Definition new_in (h : heap) (r : value) (h' : heap) : Prop :=
  unchanged h h' ∧ created h r h' ∧ has_xy h' r.

(** The heap after [p.k op= r], for [p] the object at [l]. *)
Definition assign (op : heap -> value -> value -> value)
    (l : loc) (k : string) (r : heap -> value) (h : heap) : heap :=
  write_prop h l k (op h (read_prop h (VObject l) k) (r h)).

Definition Add_num (subtract : value) : number -> number -> number :=
  if ToBoolean (default_arg subtract (VBool false))
  then num_sub else num_add.

Definition mirrored (flag : value) (n : number) : number :=
  if ToBoolean flag then num_neg n else n.

Definition polar_x (angle radius : number) : number :=
  num_mul radius (num_cos angle).

Definition polar_y (angle radius : number) : number :=
  num_mul radius (num_sin angle).

Section Vocabulary.

Context (env : host).

(** The operator [Add] applies. *)
Definition Add_op (subtract : value) : heap -> value -> value -> value :=
  if ToBoolean (default_arg subtract (VBool false))
  then js_sub env else js_add env.

(** The heap after [if (flag) { p.k = -p.k; }], for [p] the object at [l]. *)
Definition negate (flag : value) (l : loc) (k : string) (h : heap) : heap :=
  if ToBoolean flag
  then write_prop h l k (js_neg env h (read_prop h (VObject l) k))
  else h.

(** [Rotate] in the words of the spec, once the collaborators have given
    the angle [current] of the point about the origin, their [distance]
    and the [turn] in radians: the polar offset at the sum of the angles
    and at that distance, added to the origin. *)
Definition Rotate_spec (current distance turn rotationOrigin : value)
    : M value :=
  angle ← gets (λ h, js_add env h current turn);
  offset ← FromPolar env angle distance;
  Add env rotationOrigin offset VUndefined.

(** An end point of an arc in the words of the spec:
    [Add(origin, FromPolar(ToRadians(angle), radius))]. *)
Definition arc_endpoint (origin radius angle : value) : M value :=
  radians ← call (λ h, Angle_ToRadians env h angle);
  offset ← FromPolar env radians radius;
  Add env origin offset VUndefined.

End Vocabulary.

(** ** The operations of the module, as one type *)

Inductive operation : Type :=
  | OpZero
  | OpEnsure (arguments : list value)
  | OpClone (point : value)
  | OpAdd (a b subtract : value)
  | OpSubtract (a b : value)
  | OpScale (point scale : value)
  | OpMirror (point mirrorX mirrorY : value)
  | OpRotate (point angleInDegrees rotationOrigin : value)
  | OpFromPolar (angleInRadians radius : value)
  | OpFromArc (arc : value).

Definition run (env : host) (op : operation) : M value :=
  match op with
  | OpZero => Zero
  | OpEnsure arguments => Ensure arguments
  | OpClone point => Clone point
  | OpAdd a b subtract => Add env a b subtract
  | OpSubtract a b => Subtract env a b
  | OpScale point scale => Scale env point scale
  | OpMirror point mirrorX mirrorY => Mirror env point mirrorX mirrorY
  | OpRotate point angleInDegrees rotationOrigin =>
      Rotate env point angleInDegrees rotationOrigin
  | OpFromPolar angleInRadians radius => FromPolar env angleInRadians radius
  | OpFromArc arc => FromArc env arc
  end.

(** The operations that make a Point of their own; [Ensure] may hand its
    argument back and [FromArc] returns an Array. *)
Definition constructs (op : operation) : bool :=
  match op with
  | OpEnsure _ | OpFromArc _ => false
  | _ => true
  end.

(** The arguments of an operation that are Points. *)
Definition points (op : operation) : list value :=
  match op with
  | OpClone point | OpScale point _ | OpMirror point _ _ => [point]
  | OpAdd a b _ | OpSubtract a b => [a; b]
  | OpRotate point _ rotationOrigin => [point; rotationOrigin]
  | _ => []
  end.

(** A collaborator returns. *)
Definition answers (f : exn + value) : Prop := ∃ v, f = inr v.

Definition finite_number (v : value) : Prop := ∃ x : R, v = VNumber (Fin x).

(** A collaborator returns a finite number. *)
Definition answers_finite (f : exn + value) : Prop :=
  ∃ x : R, f = inr (VNumber (Fin x)).

(** The collaborators that [op] calls in heap [h] return. *)
Definition collaborators_answer (env : host) (h : heap) (op : operation)
    : Prop :=
  match op with
  | OpRotate point angleInDegrees rotationOrigin =>
      answers (Angle_FromPointToRadians env h point rotationOrigin)
      ∧ answers (Measure_PointDistance env h rotationOrigin point)
      ∧ answers (Angle_ToRadians env h angleInDegrees)
  | OpFromArc arc =>
      (∀ h', answers (Angle_ToRadians env h' (read_prop h arc "startAngle")))
      ∧ (∀ h', answers (Angle_ToRadians env h' (read_prop h arc "endAngle")))
  | _ => True
  end.

(** The calls that have what they read from and whose collaborators
    return: [Clone] and [FromArc] read a property of their argument, which
    must not be [undefined] or [null]; [Rotate] and [FromArc] need their
    collaborators to return. *)
Definition admissible (env : host) (h : heap) (op : operation) : Prop :=
  match op with
  | OpClone point => point ≠ VUndefined ∧ point ≠ VNull
  | OpFromArc arc =>
      arc ≠ VUndefined ∧ arc ≠ VNull ∧ in_heap h arc
      ∧ collaborators_answer env h op
  | _ => collaborators_answer env h op
  end.

(** What a call returns: an object with an [x] and a [y], or for [FromArc]
    an Array of two such objects. *)
Definition result_shape (op : operation) (h : heap) (r : value) : Prop :=
  match op with
  | OpFromArc _ =>
      ∃ s e, array_elements h r = Some [s; e] ∧ has_xy h s ∧ has_xy h e
  | _ => has_xy h r
  end.

(** Inputs with finite coordinates: Points, sequences and absent values
    read as Points with finite coordinates, finite numbers where a number
    is expected, collaborators that return finite numbers. *)
Definition well_formed_inputs (env : host) (h : heap) (op : operation)
    : Prop :=
  match op with
  | OpZero => True
  | OpEnsure arguments =>
      finite_like h (index arguments 0) ∨ finite_number (index arguments 0)
  | OpClone point => well_formed h point
  | OpAdd a b _ | OpSubtract a b => finite_like h a ∧ finite_like h b
  | OpScale point scale => finite_like h point ∧ finite_number scale
  | OpMirror point _ _ => finite_like h point
  | OpRotate point angleInDegrees rotationOrigin =>
      finite_like h rotationOrigin
      ∧ answers_finite (Angle_FromPointToRadians env h point rotationOrigin)
      ∧ answers_finite (Measure_PointDistance env h rotationOrigin point)
      ∧ answers_finite (Angle_ToRadians env h angleInDegrees)
  | OpFromPolar angleInRadians radius =>
      finite_number angleInRadians ∧ finite_number radius
  | OpFromArc arc =>
      finite_like h (read_prop h arc "origin")
      ∧ finite_number (read_prop h arc "radius")
      ∧ (∀ h', answers_finite
                 (Angle_ToRadians env h' (read_prop h arc "startAngle")))
      ∧ (∀ h', answers_finite
                 (Angle_ToRadians env h' (read_prop h arc "endAngle")))
  end.

(** A well-formed Point, or for [FromArc] an Array of two of them. *)
Definition well_formed_output (op : operation) (h : heap) (r : value)
    : Prop :=
  match op with
  | OpFromArc _ =>
      ∃ s e, array_elements h r = Some [s; e]
             ∧ well_formed h s ∧ well_formed h e
  | _ => well_formed h r
  end.

(** Two calls return Points with the same coordinates. *)
Definition same_point (c1 c2 : outcome value) : Prop :=
  ∃ r1 h1 r2 h2 nx ny,
    c1 = Returns r1 h1 ∧ c2 = Returns r2 h2
    ∧ point_at h1 r1 nx ny ∧ point_at h2 r2 nx ny.

(** [item] is absent or falsy, to be read as the origin, or is the
    two-element sequence [[a, b]] of numbers. *)
Definition absent_or_pair (h : heap) (item : value) (a b : number) : Prop :=
  (ToBoolean item = false ∧ a = Fin 0 ∧ b = Fin 0)
  ∨ (∃ l, item = VObject l
          ∧ h !! l = Some (array_object [VNumber a; VNumber b])).

(** ** Operands that convert *)

(** A primitive: [undefined], [null], a boolean, a number or a string. The
    arithmetic operators convert a primitive without calling into it. *)
Definition primitive (v : value) : Prop := ∀ l, v ≠ VObject l.

(** No coordinate that [Ensure] can take from [v] is an object: neither
    its [x] and [y] nor its first two elements. *)
Definition plain_coordinates (h : heap) (v : value) : Prop :=
  primitive (read_prop h v "x") ∧ primitive (read_prop h v "y")
  ∧ ∀ es, array_elements h v = Some es →
          primitive (index es 0) ∧ primitive (index es 1).

(** A collaborator returns a primitive. *)
Definition answers_primitive (f : exn + value) : Prop :=
  ∃ v, f = inr v ∧ primitive v.

(** What a collaborator returns, if it returns, is a primitive. *)
Definition primitive_result (f : exn + value) : Prop :=
  ∀ v, f = inr v → primitive v.

(** The calls in which no object reaches an arithmetic operator, [Clone]
    and [FromArc] are given something to read from, and the collaborators
    return. *)
Definition plain_inputs (env : host) (h : heap) (op : operation) : Prop :=
  match op with
  | OpZero | OpEnsure _ => True
  | OpClone point => point ≠ VUndefined ∧ point ≠ VNull
  | OpAdd a b _ | OpSubtract a b =>
      plain_coordinates h a ∧ plain_coordinates h b
  | OpScale point scale => plain_coordinates h point ∧ primitive scale
  | OpMirror point _ _ => plain_coordinates h point
  | OpRotate point angleInDegrees rotationOrigin =>
      plain_coordinates h rotationOrigin
      ∧ answers_primitive
          (Angle_FromPointToRadians env h point rotationOrigin)
      ∧ answers_primitive (Measure_PointDistance env h rotationOrigin point)
      ∧ answers_primitive (Angle_ToRadians env h angleInDegrees)
  | OpFromPolar angleInRadians radius =>
      primitive angleInRadians ∧ primitive radius
  | OpFromArc arc =>
      arc ≠ VUndefined ∧ arc ≠ VNull ∧ in_heap h arc
      ∧ plain_coordinates h (read_prop h arc "origin")
      ∧ primitive (read_prop h arc "radius")
      ∧ (∀ h', answers_primitive
                 (Angle_ToRadians env h' (read_prop h arc "startAngle")))
      ∧ (∀ h', answers_primitive
                 (Angle_ToRadians env h' (read_prop h arc "endAngle")))
  end.

(** ** Numeric inputs and outputs *)

(** [v] is read by [Ensure] as a Point whose coordinates are numbers. *)
Definition numeric_like (h : heap) (v : value) : Prop :=
  ∃ nx ny, point_like h v nx ny.

(** A collaborator returns a number. *)
Definition answers_number (f : exn + value) : Prop :=
  ∃ n, f = inr (VNumber n).

(** Inputs whose coordinates are numbers, finite or not: Points, sequences
    and absent values read as such, numbers where a number is expected,
    collaborators that return numbers. *)
Definition numeric_inputs (env : host) (h : heap) (op : operation) : Prop :=
  match op with
  | OpZero => True
  | OpEnsure arguments =>
      numeric_like h (index arguments 0)
      ∨ is_number (index arguments 0) = true
  | OpClone point => PointShape h point
  | OpAdd a b _ | OpSubtract a b => numeric_like h a ∧ numeric_like h b
  | OpScale point scale => numeric_like h point ∧ is_number scale = true
  | OpMirror point _ _ => numeric_like h point
  | OpRotate point angleInDegrees rotationOrigin =>
      numeric_like h rotationOrigin
      ∧ answers_number (Angle_FromPointToRadians env h point rotationOrigin)
      ∧ answers_number (Measure_PointDistance env h rotationOrigin point)
      ∧ answers_number (Angle_ToRadians env h angleInDegrees)
  | OpFromPolar angleInRadians radius =>
      is_number angleInRadians = true ∧ is_number radius = true
  | OpFromArc arc =>
      numeric_like h (read_prop h arc "origin")
      ∧ is_number (read_prop h arc "radius") = true
      ∧ (∀ h', answers_number
                 (Angle_ToRadians env h' (read_prop h arc "startAngle")))
      ∧ (∀ h', answers_number
                 (Angle_ToRadians env h' (read_prop h arc "endAngle")))
  end.

(** An object with numeric [x] and [y], or for [FromArc] an Array of two
    of them. *)
Definition numeric_output (op : operation) (h : heap) (r : value) : Prop :=
  match op with
  | OpFromArc _ =>
      ∃ s e, array_elements h r = Some [s; e]
             ∧ PointShape h s ∧ PointShape h e
  | _ => PointShape h r
  end.

(** The operations that compute nothing: they copy coordinates or change
    their sign, which no arithmetic rounds or overflows. *)
Definition copies (op : operation) : bool :=
  match op with
  | OpZero | OpEnsure _ | OpClone _ | OpMirror _ _ _ => true
  | _ => false
  end.

(** ** The coordinates in binary64 *)

(** A well-formed Point as the implementation holds it: two binary64
    numbers. *)
Record point64 : Type := Point64 { x64 : float; y64 : float }.

(** [Add] on two well-formed Points, where [Ensure] returns its argument
    and [Clone] copies it: [p1.x -= p2.x] and [p1.x += p2.x] in binary64. *)
Definition Add64 (a b : point64) (subtract : bool) : point64 :=
  let p1 := Point64 (x64 a) (y64 a) in
  let p2 := b in
  if subtract
  then Point64 (x64 p1 - x64 p2)%float (y64 p1 - y64 p2)%float
  else Point64 (x64 p1 + x64 p2)%float (y64 p1 + y64 p2)%float.

Definition Subtract64 (a b : point64) : point64 := Add64 a b true.

(** [Scale] on a well-formed Point and a number: [p.x *= scale]. *)
Definition Scale64 (point : point64) (scale : float) : point64 :=
  let p := Point64 (x64 point) (y64 point) in
  Point64 (x64 p * scale)%float (y64 p * scale)%float.

(** ** A sample environment *)

Definition degrees_to_radians (v : value) : exn + value :=
  match v with
  | VNumber (Fin d) => inr (VNumber (Fin (d * PI / 180)))
  | _ => inr (VNumber NaN)
  end.

Definition sample_host : host := {|
  ObjectToString := λ _ _, "[object Object]";
  StringToNumber := λ _, NaN;
  NumberToString := λ _, "0";
  Angle_ToRadians := λ _ v, degrees_to_radians v;
  Angle_FromPointToRadians := λ _ _ _, inr (VNumber (Fin 0));
  Measure_PointDistance := λ _ _ _, inr (VNumber (Fin 1))
|}.

Definition sample_point : object :=
  point_object (VNumber (Fin 1)) (VNumber (Fin 2)).

Definition sample_arc : object := Object
  {[ "origin" := VObject 0; "radius" := VNumber (Fin 5);
     "startAngle" := VNumber (Fin 0); "endAngle" := VNumber (Fin 90) ]} None.

Definition sample_heap : list object :=
  [sample_point; array_object [VNumber (Fin 3); VNumber (Fin 4)]; sample_arc].

(** * Properties *)

(** ** Calls *)

Section Calls.

Context {A B : Type}.
Implicit Types (h : heap) (m : M A).

Lemma bind_returns m (f : A -> M B) h a h' :
  m h = Returns a h' → (m ≫= f) h = f a h'.
Proof. unfold mbind, M_bind. by intros ->. Qed.

Lemma bind_throws m (f : A -> M B) h e :
  m h = Throws e → (m ≫= f) h = Throws e.
Proof. unfold mbind, M_bind. by intros ->. Qed.

End Calls.

(** Run the first call of a sequence, given its outcome. *)
Ltac run_step H := rewrite (bind_returns _ _ _ _ _ H).

(** ** The heap *)

Section Heap.

Implicit Types (h : heap) (v w : value) (k : string) (l : loc).

Lemma unchanged_refl h : unchanged h h.
Proof. done. Qed.

Lemma unchanged_trans h1 h2 h3 :
  unchanged h1 h2 → unchanged h2 h3 → unchanged h1 h3.
Proof. unfold unchanged. by intros ? ?; etrans. Qed.

Lemma unchanged_app h t : unchanged h (h ++ t).
Proof. by exists t. Qed.

Lemma unchanged_length h h' : unchanged h h' → length h ≤ length h'.
Proof. apply prefix_length. Qed.

Lemma unchanged_lookup h h' l o :
  unchanged h h' → h !! l = Some o → h' !! l = Some o.
Proof. intros Hp Hl. by eapply prefix_lookup_Some. Qed.

Lemma read_prop_defined h v k :
  read_prop h v k ≠ VUndefined →
  ∃ l o, v = VObject l ∧ h !! l = Some o
         ∧ props o !! k = Some (read_prop h v k).
Proof.
  destruct v as [| | | | |l]; simpl; try done.
  destruct (h !! l) as [o|] eqn:Hl; [|done].
  destruct (props o !! k) as [w|] eqn:Hk; [|done].
  intros _. by exists l, o.
Qed.

Lemma read_prop_unchanged h h' v k :
  unchanged h h' → read_prop h v k ≠ VUndefined →
  read_prop h' v k = read_prop h v k.
Proof.
  intros Hp Hd. destruct (read_prop_defined _ _ _ Hd) as (l & o & -> & Hl & Hk).
  simpl. by rewrite (unchanged_lookup _ _ _ _ Hp Hl), Hl.
Qed.

Lemma read_prop_in_heap h h' v k :
  unchanged h h' → in_heap h v → read_prop h' v k = read_prop h v k.
Proof.
  intros Hu Hv. destruct v as [| | | | |l]; try done.
  destruct (lookup_lt_is_Some_2 h l (Hv l eq_refl)) as [o Hl].
  unfold read_prop. by rewrite (unchanged_lookup _ _ _ _ Hu Hl), Hl.
Qed.

Lemma point_at_unchanged h h' v nx ny :
  unchanged h h' → point_at h v nx ny → point_at h' v nx ny.
Proof.
  intros Hp [Hx Hy]. split.
  - rewrite (read_prop_unchanged h) by (done || by rewrite Hx). done.
  - rewrite (read_prop_unchanged h) by (done || by rewrite Hy). done.
Qed.

Lemma point_at_valid h v nx ny :
  point_at h v nx ny → ∃ l, v = VObject l ∧ l < length h.
Proof.
  intros [Hx _]. destruct (read_prop_defined h v "x") as (l & o & -> & Hl & _).
  { by rewrite Hx. }
  exists l. split; [done|]. by eapply lookup_lt_Some.
Qed.

Lemma point_at_has_xy h v nx ny : point_at h v nx ny → has_xy h v.
Proof.
  intros [Hx Hy].
  destruct (read_prop_defined h v "x") as (l & o & -> & Hl & Hkx).
  { by rewrite Hx. }
  destruct (read_prop_defined h (VObject l) "y")
    as (l' & o' & [= <-] & Hl' & Hky).
  { by rewrite Hy. }
  rewrite Hl in Hl'. injection Hl' as <-. by exists l, o.
Qed.

Lemma IsPoint_PointShape h v : IsPoint h v = true ↔ PointShape h v.
Proof.
  unfold IsPoint, PointShape, point_at. rewrite andb_true_iff. split.
  - intros [Hx Hy].
    destruct (read_prop h v "x") as [| | |nx| |]; try done.
    destruct (read_prop h v "y") as [| | |ny| |]; try done.
    by exists nx, ny.
  - by intros (nx & ny & -> & ->).
Qed.

Lemma read_prop_alloc h o k :
  read_prop (h ++ [o]) (VObject (length h)) k
  = default VUndefined (props o !! k).
Proof. unfold read_prop. by rewrite list_lookup_middle. Qed.

Lemma point_at_alloc h nx ny :
  point_at (h ++ [point_object (VNumber nx) (VNumber ny)])
    (VObject (length h)) nx ny.
Proof. split; by rewrite read_prop_alloc. Qed.

Lemma length_write_prop h l k w : length (write_prop h l k w) = length h.
Proof. unfold write_prop. destruct (h !! l); [apply length_insert | done]. Qed.

Lemma unchanged_write_prop h hc l k w :
  unchanged h hc → length h ≤ l → unchanged h (write_prop hc l k w).
Proof.
  intros [t ->] Hl. unfold write_prop.
  destruct ((h ++ t) !! l); [|by exists t].
  rewrite insert_app_r_alt by done. eexists. done.
Qed.

Lemma read_write_prop h l o k w k' :
  h !! l = Some o →
  read_prop (write_prop h l k w) (VObject l) k' =
  if decide (k = k') then w else read_prop h (VObject l) k'.
Proof.
  intros Hl. unfold write_prop. simpl. rewrite Hl.
  rewrite list_lookup_insert_eq by (by eapply lookup_lt_Some). simpl.
  rewrite lookup_insert. by destruct (decide (k = k')).
Qed.

Lemma read_write_prop_other h l k w v k' :
  v ≠ VObject l → read_prop (write_prop h l k w) v k' = read_prop h v k'.
Proof.
  intros Hv. destruct v as [| | | | |l']; try done.
  unfold write_prop. simpl. destruct (h !! l); [|done].
  rewrite list_lookup_insert_ne; [done | congruence].
Qed.

End Heap.

(** ** Construction and coercion *)

Section Coercion.

Implicit Types (h : heap) (v w : value) (k : string) (l : loc).

Lemma has_xy_new_point h vx vy :
  has_xy (h ++ [point_object vx vy]) (VObject (length h)).
Proof.
  exists (length h), (point_object vx vy). split; [done|].
  split; [by apply list_lookup_middle|]. by split; eexists.
Qed.

Lemma has_xy_unchanged h h' v : unchanged h h' → has_xy h v → has_xy h' v.
Proof.
  intros Hp (l & o & -> & Hl & Hx & Hy). exists l, o.
  eauto using unchanged_lookup.
Qed.

Lemma has_xy_write_prop h v l k w :
  has_xy h v → has_xy (write_prop h l k w) v.
Proof.
  intros (l' & o & -> & Hl & Hx & Hy). unfold write_prop.
  destruct (h !! l) as [o'|] eqn:Hl'; [|by exists l', o].
  destruct (decide (l = l')) as [->|Hne].
  - rewrite Hl in Hl'. injection Hl' as <-.
    eexists l', _. split; [done|]. split.
    + apply list_lookup_insert_eq. by eapply lookup_lt_Some.
    + simpl. rewrite !lookup_insert. split; case_decide; done.
  - exists l', o. by rewrite list_lookup_insert_ne.
Qed.

Lemma IsPoint_has_xy h v : IsPoint h v = true → has_xy h v.
Proof.
  rewrite IsPoint_PointShape. intros (nx & ny & H).
  by eapply point_at_has_xy.
Qed.

Lemma Zero_outcome h : Zero h = new_point h zero zero.
Proof. done. Qed.

Lemma Clone_outcome h v :
  v ≠ VUndefined → v ≠ VNull →
  Clone v h = new_point h (read_prop h v "x") (read_prop h v "y").
Proof. by destruct v. Qed.

Lemma Ensure_outcome arguments h :
  Ensure arguments h = Ensure_rules array_of_two arguments h.
Proof.
  unfold Ensure, Ensure_rules, array_of_two.
  destruct (negb (ToBoolean _)); [done|].
  unfold mbind, M_bind, gets.
  destruct (IsPoint h _); [done|].
  destruct (longer_than 1 _); [done|].
  rewrite (bool_decide_ext (1 < length arguments) (2 ≤ length arguments))
    by lia.
  by destruct (bool_decide _).
Qed.

(** Whatever it is given, [Ensure] returns a reference to an object with
    an [x] and a [y]: its argument itself, or an object it creates. *)
Lemma Ensure_general arguments h :
  ∃ r h', Ensure arguments h = Returns r h'
    ∧ unchanged h h' ∧ has_xy h' r
    ∧ ((r = index arguments 0 ∧ h' = h ∧ IsPoint h r = true)
       ∨ (r = VObject (length h) ∧ length h' = S (length h))).
Proof.
  rewrite Ensure_outcome. unfold Ensure_rules, new_point.
  assert (Hnew : ∀ vx vy, ∃ r h',
    Returns (VObject (length h)) (h ++ [point_object vx vy]) = Returns r h'
    ∧ unchanged h h' ∧ has_xy h' r
    ∧ ((r = index arguments 0 ∧ h' = h ∧ IsPoint h r = true)
       ∨ (r = VObject (length h) ∧ length h' = S (length h)))).
  { intros vx vy. eexists _, _. split; [done|].
    split; [apply unchanged_app|]. split; [apply has_xy_new_point|].
    right. split; [done|]. rewrite length_app. simpl. lia. }
  destruct (negb (ToBoolean _)); [apply Hnew|].
  destruct (IsPoint h _) eqn:Hp.
  { eexists _, _. split; [done|]. split; [apply unchanged_refl|].
    split; [by apply IsPoint_has_xy|]. by left. }
  destruct (array_of_two h _); [apply Hnew|].
  destruct (bool_decide _); apply Hnew.
Qed.

(** [Clone(Ensure(v))] does not throw: what [Ensure] returns is an object. *)
Lemma Clone_Ensure arguments h e h1 :
  Ensure arguments h = Returns e h1 →
  Clone e h1 = Returns (VObject (length h1)) (h1 ++ [cloned h1 e]).
Proof.
  intros He.
  destruct (Ensure_general arguments h) as (e' & h1' & He' & _ & Hxy & _).
  rewrite He in He'. injection He' as <- <-.
  destruct Hxy as (l & o & -> & _). by apply Clone_outcome.
Qed.

(** What [Ensure] returns can be read from: it is an object. *)
Lemma get_prop_Ensure arguments h e h1 k h' :
  Ensure arguments h = Returns e h1 →
  get_prop e k h' = Returns (read_prop h' e k) h'.
Proof.
  intros He.
  destruct (Ensure_general arguments h) as (e' & h1' & He' & _ & Hxy & _).
  rewrite He in He'. injection He' as <- <-.
  by destruct Hxy as (l & o & -> & _).
Qed.

Lemma point_like_unchanged h h' v nx ny :
  unchanged h h' → point_like h v nx ny → point_like h' v nx ny.
Proof.
  intros Hp [H | [H | (Hn & es & Ha & Hlen & H0 & H1)]].
  - by left.
  - right; left. by eapply point_at_unchanged.
  - destruct v as [| | | | |l]; try done. simpl in Ha.
    destruct (h !! l) as [o|] eqn:Hl; [|done].
    right; right. split.
    + unfold IsPoint in *. simpl in *.
      by rewrite (unchanged_lookup _ _ _ _ Hp Hl), Hl in *.
    + exists es. simpl. by rewrite (unchanged_lookup _ _ _ _ Hp Hl).
Qed.

(** On a Point, on a sequence that starts with two numbers and on a falsy
    value, [Ensure] returns a Point with the expected coordinates: the
    argument itself if it is a Point, a new object otherwise. *)
Lemma Ensure_point_like h v rest nx ny :
  point_like h v nx ny →
  ∃ r h', Ensure (v :: rest) h = Returns r h'
    ∧ unchanged h h' ∧ point_at h' r nx ny
    ∧ ((r = v ∧ h' = h ∧ point_at h v nx ny)
       ∨ (r = VObject (length h) ∧ length h' = S (length h))).
Proof.
  intros Hv. rewrite Ensure_outcome. unfold Ensure_rules, new_point.
  change (index (v :: rest) 0) with v.
  destruct Hv as [(Hf & -> & ->) | [H | (Hn & es & Ha & Hlen & H0 & H1)]].
  - rewrite Hf. simpl. eexists _, _. split; [done|].
    split; [apply unchanged_app|]. split; [apply point_at_alloc|].
    right. split; [done|]. rewrite length_app. simpl. lia.
  - destruct (point_at_valid _ _ _ _ H) as (l & -> & Hl). simpl.
    rewrite (proj2 (IsPoint_PointShape h (VObject l))) by (by eexists _, _).
    eexists _, _. split; [done|]. split; [apply unchanged_refl|]. eauto.
  - destruct v as [| | | | |l]; try done. simpl negb. cbv iota. rewrite Hn.
    unfold array_of_two. rewrite Ha. simpl.
    rewrite bool_decide_true by done. rewrite H0, H1.
    eexists _, _. split; [done|].
    split; [apply unchanged_app|]. split; [apply point_at_alloc|].
    right. split; [done|]. rewrite length_app. simpl. lia.
Qed.

End Coercion.

(** ** Arithmetic *)

Section Arithmetic.

Context (env : host).
Implicit Types (h : heap) (v w a b : value) (k : string) (l : loc).

Lemma has_xy_object h v : has_xy h v → ∃ l, v = VObject l ∧ l < length h.
Proof.
  intros (l & o & -> & Hl & _). exists l. split; [done|].
  by eapply lookup_lt_Some.
Qed.

Lemma length_assign op l k r h : length (assign op l k r h) = length h.
Proof. apply length_write_prop. Qed.

Lemma unchanged_assign op l k r h0 h :
  unchanged h0 h → length h0 ≤ l → unchanged h0 (assign op l k r h).
Proof. apply unchanged_write_prop. Qed.

Lemma has_xy_assign op l k r h v : has_xy h v → has_xy (assign op l k r h) v.
Proof. apply has_xy_write_prop. Qed.

Lemma Add_run a b subtract h e h1 p2 h3 :
  Ensure [a] h = Returns e h1 →
  Ensure [b] (h1 ++ [cloned h1 e]) = Returns p2 h3 →
  Add env a b subtract h =
  Returns (VObject (length h1))
    (assign (Add_op env subtract) (length h1) "y" (λ h, read_prop h p2 "y")
       (assign (Add_op env subtract) (length h1) "x" (λ h, read_prop h p2 "x")
          h3)).
Proof.
  intros He Hp2. unfold Add, Add_op.
  run_step He. run_step (Clone_Ensure _ _ _ _ He). run_step Hp2.
  pose proof (λ k h', get_prop_Ensure _ _ _ _ k h' Hp2) as Hget.
  destruct (ToBoolean _);
    unfold update_prop, mbind, M_bind, get_prop at 1 3, gets, set_prop;
    by rewrite !Hget.
Qed.

Lemma new_in_new_point h vx vy r h' :
  new_point h vx vy = Returns r h' → new_in h r h'.
Proof.
  intros [= <- <-]. split; [apply unchanged_app|].
  split; [|apply has_xy_new_point].
  exists (length h). split; [done|]. rewrite length_app. simpl. lia.
Qed.

(** [Add] on any three values, objects converting as the environment
    says: it returns a new object, and every object that was there is as
    it was. *)
Lemma Add_general a b subtract h :
  ∃ r h', Add env a b subtract h = Returns r h' ∧ new_in h r h'.
Proof.
  destruct (Ensure_general [a] h) as (e & h1 & He & Hu1 & _ & _).
  destruct (Ensure_general [b] (h1 ++ [cloned h1 e]))
    as (p2 & h3 & Hp2 & Hu3 & _ & _).
  rewrite (Add_run _ _ _ _ _ _ _ _ He Hp2). eexists _, _. split; [done|].
  pose proof (unchanged_length _ _ Hu1) as Hl1.
  pose proof (unchanged_length _ _ Hu3) as Hl3.
  rewrite length_app in Hl3. simpl in Hl3.
  assert (unchanged h h3) as Hu.
  { eapply unchanged_trans; [done|].
    eapply unchanged_trans; [apply unchanged_app | done]. }
  split; [by repeat apply unchanged_assign|]. split.
  - exists (length h1). split; [done|]. rewrite !length_assign. lia.
  - do 2 apply has_xy_assign. apply (has_xy_unchanged _ _ _ Hu3).
    apply has_xy_new_point.
Qed.

Lemma point_like_object h l nx ny :
  point_like h (VObject l) nx ny → l < length h.
Proof.
  intros [[? _] | [H | (_ & es & Ha & _)]]; [done| |].
  - destruct (point_at_valid _ _ _ _ H) as (l' & [= <-] & Hl). done.
  - simpl in Ha. destruct (h !! l) eqn:Hl; [|done]. by eapply lookup_lt_Some.
Qed.

Lemma Add_op_numbers subtract h n1 n2 :
  Add_op env subtract h (VNumber n1) (VNumber n2)
  = VNumber (Add_num subtract n1 n2).
Proof. unfold Add_op, Add_num. by destruct (ToBoolean _). Qed.

(** [Add] on two Points, or sequences, or absent values: the new Point
    holds the sums, or the differences, of the coordinates. *)
Lemma Add_point_like a b subtract h ax ay bx by_ :
  point_like h a ax ay → point_like h b bx by_ →
  ∃ r h', Add env a b subtract h = Returns r h' ∧ new_in h r h'
    ∧ point_at h' r (Add_num subtract ax bx) (Add_num subtract ay by_).
Proof.
  intros Ha Hb.
  destruct (Add_general a b subtract h) as (r & h' & Hadd & Hnew).
  exists r, h'. split; [done|]. split; [done|].
  destruct (Ensure_point_like _ _ [] _ _ Ha)
    as (e & h1 & He & Hu1 & [Hex Hey] & _).
  set (h2 := h1 ++ [cloned h1 e]).
  assert (unchanged h h2) as Hu2.
  { eapply unchanged_trans; [done | apply unchanged_app]. }
  apply (point_like_unchanged _ _ _ _ _ Hu2) in Hb as Hb2.
  destruct (Ensure_point_like _ _ [] _ _ Hb2)
    as (p2 & h3 & Hp2 & Hu3 & Hp2at & Hcase).
  rewrite (Add_run _ _ _ _ _ _ _ _ He Hp2) in Hadd. injection Hadd as <- <-.
  set (l1 := length h1).
  assert (point_at h3 (VObject l1) ax ay) as [H1x H1y].
  { apply (point_at_unchanged _ _ _ _ _ Hu3). unfold h2, cloned.
    rewrite Hex, Hey. apply point_at_alloc. }
  assert (is_Some (h3 !! l1)) as [o1 Ho1].
  { apply lookup_lt_is_Some. apply unchanged_length in Hu3.
    unfold h2 in Hu3. rewrite length_app in Hu3. simpl in Hu3. lia. }
  assert (p2 ≠ VObject l1) as Hne.
  { destruct Hcase as [(-> & _ & _) | [-> Hlen]].
    - destruct (point_at_valid _ _ _ _ Hp2at) as (l & -> & _).
      apply point_like_object in Hb. apply unchanged_length in Hu1.
      intros [= ->]. unfold l1 in Hb. lia.
    - unfold h2. rewrite length_app. simpl. intros [= Heq].
      unfold l1 in Heq. lia. }
  destruct Hp2at as [H2x H2y].
  unfold assign at 2. rewrite H1x, H2x, Add_op_numbers.
  set (h4 := write_prop h3 l1 "x" _).
  assert (is_Some (h4 !! l1)) as [o4 Ho4].
  { apply lookup_lt_is_Some. unfold h4. rewrite length_write_prop.
    by eapply lookup_lt_Some. }
  unfold assign.
  assert (read_prop h4 (VObject l1) "y" = VNumber ay) as ->.
  { unfold h4. rewrite (read_write_prop _ _ _ _ _ _ Ho1). by case_decide. }
  assert (read_prop h4 p2 "y" = VNumber by_) as ->.
  { unfold h4. by rewrite read_write_prop_other. }
  rewrite Add_op_numbers. split.
  - rewrite (read_write_prop _ _ _ _ _ _ Ho4). case_decide; [done|].
    unfold h4. rewrite (read_write_prop _ _ _ _ _ _ Ho1). by case_decide.
  - rewrite (read_write_prop _ _ _ _ _ _ Ho4). by case_decide.
Qed.

End Arithmetic.

(** ** Transforms *)

Section Transforms.

Context (env : host).
Implicit Types (h : heap) (v w a b : value) (k : string) (l : loc).

Lemma point_at_lookup h v nx ny :
  point_at h v nx ny → ∃ l o, v = VObject l ∧ h !! l = Some o.
Proof.
  intros H. destruct (point_at_has_xy _ _ _ _ H) as (l & o & -> & Hl & _).
  by exists l, o.
Qed.

Lemma point_at_write_x h l nx ny n :
  point_at h (VObject l) nx ny →
  point_at (write_prop h l "x" (VNumber n)) (VObject l) n ny.
Proof.
  intros H. destruct (point_at_lookup _ _ _ _ H) as (l' & o & [= <-] & Hl).
  destruct H as [_ Hy]. split.
  - rewrite (read_write_prop _ _ _ _ _ _ Hl). by case_decide.
  - rewrite (read_write_prop _ _ _ _ _ _ Hl). by case_decide.
Qed.

Lemma point_at_write_y h l nx ny n :
  point_at h (VObject l) nx ny →
  point_at (write_prop h l "y" (VNumber n)) (VObject l) nx n.
Proof.
  intros H. destruct (point_at_lookup _ _ _ _ H) as (l' & o & [= <-] & Hl).
  destruct H as [Hx _]. split.
  - rewrite (read_write_prop _ _ _ _ _ _ Hl). by case_decide.
  - rewrite (read_write_prop _ _ _ _ _ _ Hl). by case_decide.
Qed.

Lemma length_negate flag l k h : length (negate env flag l k h) = length h.
Proof.
  unfold negate. destruct (ToBoolean flag); [apply length_write_prop | done].
Qed.

Lemma unchanged_negate flag l k h0 h :
  unchanged h0 h → length h0 ≤ l → unchanged h0 (negate env flag l k h).
Proof.
  unfold negate. destruct (ToBoolean flag); [apply unchanged_write_prop | done].
Qed.

Lemma has_xy_negate flag l k h v :
  has_xy h v → has_xy (negate env flag l k h) v.
Proof.
  unfold negate. destruct (ToBoolean flag); [apply has_xy_write_prop | done].
Qed.

Lemma Mirror_run point mirrorX mirrorY h e h1 :
  Ensure [point] h = Returns e h1 →
  Mirror env point mirrorX mirrorY h =
  Returns (VObject (length h1))
    (negate env mirrorY (length h1) "y"
       (negate env mirrorX (length h1) "x" (h1 ++ [cloned h1 e]))).
Proof.
  intros He. unfold Mirror, negate.
  run_step He. run_step (Clone_Ensure _ _ _ _ He).
  by destruct (ToBoolean mirrorX), (ToBoolean mirrorY).
Qed.

Lemma Scale_run point scale h e h1 :
  Ensure [point] h = Returns e h1 →
  Scale env point scale h =
  Returns (VObject (length h1))
    (assign (js_mul env) (length h1) "y" (λ _, scale)
       (assign (js_mul env) (length h1) "x" (λ _, scale)
          (h1 ++ [cloned h1 e]))).
Proof.
  intros He. unfold Scale.
  run_step He. by run_step (Clone_Ensure _ _ _ _ He).
Qed.

Lemma created_alloc h h1 o (h' : heap) :
  unchanged h h1 → length h' = length (h1 ++ [o]) →
  created h (VObject (length h1)) h'.
Proof.
  intros Hu Hlen. exists (length h1). split; [done|].
  apply unchanged_length in Hu. rewrite Hlen, length_app. simpl. lia.
Qed.

(** [Mirror] on any three values, objects converting as the environment
    says, returns a new object and touches no other. *)
Lemma Mirror_general point mirrorX mirrorY h :
  ∃ r h', Mirror env point mirrorX mirrorY h = Returns r h' ∧ new_in h r h'.
Proof.
  destruct (Ensure_general [point] h) as (e & h1 & He & Hu1 & _ & _).
  rewrite (Mirror_run _ _ _ _ _ _ He). eexists _, _. split; [done|].
  pose proof (unchanged_length _ _ Hu1) as Hl1.
  assert (unchanged h (h1 ++ [cloned h1 e])) as Hu.
  { eapply unchanged_trans; [done | apply unchanged_app]. }
  split; [by repeat apply unchanged_negate|]. split.
  - eapply created_alloc; [done|]. by rewrite !length_negate.
  - do 2 apply has_xy_negate. apply has_xy_new_point.
Qed.

Lemma Scale_general point scale h :
  ∃ r h', Scale env point scale h = Returns r h' ∧ new_in h r h'.
Proof.
  destruct (Ensure_general [point] h) as (e & h1 & He & Hu1 & _ & _).
  rewrite (Scale_run _ _ _ _ _ He). eexists _, _. split; [done|].
  pose proof (unchanged_length _ _ Hu1) as Hl1.
  assert (unchanged h (h1 ++ [cloned h1 e])) as Hu.
  { eapply unchanged_trans; [done | apply unchanged_app]. }
  split; [by repeat apply unchanged_assign|]. split.
  - eapply created_alloc; [done|]. by rewrite !length_assign.
  - do 2 apply has_xy_assign. apply has_xy_new_point.
Qed.

Lemma Mirror_point_like point mirrorX mirrorY h nx ny :
  point_like h point nx ny →
  ∃ r h', Mirror env point mirrorX mirrorY h = Returns r h' ∧ new_in h r h'
    ∧ point_at h' r (mirrored mirrorX nx) (mirrored mirrorY ny).
Proof.
  intros Hp.
  destruct (Mirror_general point mirrorX mirrorY h) as (r & h' & Hm & Hnew).
  exists r, h'. split; [done|]. split; [done|].
  destruct (Ensure_point_like _ _ [] _ _ Hp)
    as (e & h1 & He & Hu1 & [Hex Hey] & _).
  rewrite (Mirror_run _ _ _ _ _ _ He) in Hm. injection Hm as <- <-.
  unfold cloned. rewrite Hex, Hey.
  pose proof (point_at_alloc h1 nx ny) as H2.
  assert (point_at (negate env mirrorX (length h1) "x"
    (h1 ++ [point_object (VNumber nx) (VNumber ny)])) (VObject (length h1))
    (mirrored mirrorX nx) ny) as H3.
  { unfold negate, mirrored. destruct (ToBoolean mirrorX); [|done].
    rewrite (proj1 H2). by eapply point_at_write_x. }
  unfold negate at 1. unfold mirrored at 2.
  destruct (ToBoolean mirrorY); [|done].
  rewrite (proj2 H3). by eapply point_at_write_y.
Qed.

Lemma Scale_point_like point s h nx ny :
  point_like h point nx ny →
  ∃ r h', Scale env point (VNumber s) h = Returns r h' ∧ new_in h r h'
    ∧ point_at h' r (num_mul nx s) (num_mul ny s).
Proof.
  intros Hp.
  destruct (Scale_general point (VNumber s) h) as (r & h' & Hm & Hnew).
  exists r, h'. split; [done|]. split; [done|].
  destruct (Ensure_point_like _ _ [] _ _ Hp)
    as (e & h1 & He & Hu1 & [Hex Hey] & _).
  rewrite (Scale_run _ _ _ _ _ He) in Hm. injection Hm as <- <-.
  unfold cloned. rewrite Hex, Hey.
  pose proof (point_at_alloc h1 nx ny) as H2.
  assert (point_at (assign (js_mul env) (length h1) "x" (λ _, VNumber s)
    (h1 ++ [point_object (VNumber nx) (VNumber ny)])) (VObject (length h1))
    (num_mul nx s) ny) as H3.
  { unfold assign. rewrite (proj1 H2). by eapply point_at_write_x. }
  unfold assign at 1. rewrite (proj2 H3). by eapply point_at_write_y.
Qed.

End Transforms.

(** ** Polar conversion and rotation *)

Section Polar.

Context (env : host).
Implicit Types (h : heap) (v w a b : value) (k : string) (l : loc).

Lemma new_in_trans h h1 r h' : unchanged h h1 → new_in h1 r h' → new_in h r h'.
Proof.
  intros Hu (Hu' & (l & -> & Hl) & Hxy). split; [by eapply unchanged_trans|].
  split; [|done]. exists l. split; [done|]. apply unchanged_length in Hu. lia.
Qed.

Lemma FromPolar_outcome angle radius h :
  FromPolar env angle radius h =
  new_point h (js_mul env h radius (Math_cos env h angle))
              (js_mul env h radius (Math_sin env h angle)).
Proof. done. Qed.

Lemma FromPolar_numbers angle radius h :
  FromPolar env (VNumber angle) (VNumber radius) h =
  new_point h (VNumber (polar_x angle radius)) (VNumber (polar_y angle radius)).
Proof. done. Qed.

Lemma Rotate_run point angleInDegrees rotationOrigin h current distance turn :
  Angle_FromPointToRadians env h point rotationOrigin = inr current →
  Measure_PointDistance env h rotationOrigin point = inr distance →
  Angle_ToRadians env h angleInDegrees = inr turn →
  Rotate env point angleInDegrees rotationOrigin h =
  Rotate_spec env current distance turn rotationOrigin h.
Proof.
  intros Hc Hd Ht. unfold Rotate, Rotate_spec, call, mbind, M_bind.
  by rewrite Hc, Hd, Ht.
Qed.

Lemma Rotate_spec_general current distance turn rotationOrigin h :
  ∃ r h', Rotate_spec env current distance turn rotationOrigin h = Returns r h'
          ∧ new_in h r h'.
Proof.
  unfold Rotate_spec.
  rewrite (bind_returns _ _ _ (js_add env h current turn) h) by done.
  rewrite (bind_returns _ _ _ _ _ (FromPolar_outcome _ _ _)).
  destruct (Add_general env rotationOrigin (VObject (length h)) VUndefined
    (h ++ [point_object
      (js_mul env h distance (Math_cos env h (js_add env h current turn)))
      (js_mul env h distance (Math_sin env h (js_add env h current turn)))]))
    as (r & h' & Hadd & Hnew).
  exists r, h'. split; [done|].
  eapply new_in_trans; [apply unchanged_app | done].
Qed.

Lemma point_like_point h v nx ny : point_at h v nx ny → point_like h v nx ny.
Proof. intros H. right. by left. Qed.

Lemma Rotate_spec_numbers current distance turn rotationOrigin h ox oy :
  point_like h rotationOrigin ox oy →
  ∃ r h', Rotate_spec env (VNumber current) (VNumber distance) (VNumber turn)
            rotationOrigin h = Returns r h'
    ∧ new_in h r h'
    ∧ point_at h' r (num_add ox (polar_x (num_add current turn) distance))
                    (num_add oy (polar_y (num_add current turn) distance)).
Proof.
  intros Ho. unfold Rotate_spec.
  rewrite (bind_returns _ _ _ (VNumber (num_add current turn)) h) by done.
  rewrite (bind_returns _ _ _ _ _ (FromPolar_numbers _ _ _)).
  set (h2 := h ++ [_]).
  destruct (Add_point_like env rotationOrigin (VObject (length h)) VUndefined h2
    ox oy (polar_x (num_add current turn) distance)
    (polar_y (num_add current turn) distance))
    as (r & h' & Hadd & Hnew & Hat).
  { eapply point_like_unchanged; [apply unchanged_app | done]. }
  { apply point_like_point, point_at_alloc. }
  exists r, h'. split; [done|].
  split; [eapply new_in_trans; [apply unchanged_app | done] | done].
Qed.

Lemma arc_endpoint_general origin radius angle h radians :
  Angle_ToRadians env h angle = inr radians →
  ∃ r h', arc_endpoint env origin radius angle h = Returns r h' ∧ new_in h r h'.
Proof.
  intros Hr. unfold arc_endpoint.
  rewrite (bind_returns _ _ _ radians h) by (unfold call; by rewrite Hr).
  rewrite (bind_returns _ _ _ _ _ (FromPolar_outcome _ _ _)).
  set (h2 := h ++ [_]).
  destruct (Add_general env origin (VObject (length h)) VUndefined h2)
    as (r & h' & Hadd & Hnew).
  exists r, h'. split; [done|].
  eapply new_in_trans; [apply unchanged_app | done].
Qed.

Lemma arc_endpoint_returns origin radius angle h r h' :
  arc_endpoint env origin radius angle h = Returns r h' → new_in h r h'.
Proof.
  intros Hs. destruct (Angle_ToRadians env h angle) as [e|radians] eqn:Hr.
  - unfold arc_endpoint in Hs. rewrite (bind_throws _ _ _ e) in Hs; [done|].
    unfold call. by rewrite Hr.
  - destruct (arc_endpoint_general origin radius _ _ _ Hr)
      as (r' & h'' & Hrun & Hnew).
    rewrite Hs in Hrun. by injection Hrun as <- <-.
Qed.

Lemma arc_endpoint_numbers origin radius angle h radians ox oy :
  Angle_ToRadians env h angle = inr (VNumber radians) →
  point_like h origin ox oy →
  ∃ r h', arc_endpoint env origin (VNumber radius) angle h = Returns r h'
    ∧ new_in h r h'
    ∧ point_at h' r (num_add ox (polar_x radians radius))
                    (num_add oy (polar_y radians radius)).
Proof.
  intros Hr Ho. unfold arc_endpoint.
  rewrite (bind_returns _ _ _ (VNumber radians) h)
    by (unfold call; by rewrite Hr).
  rewrite (bind_returns _ _ _ _ _ (FromPolar_numbers _ _ _)).
  set (h2 := h ++ [_]).
  destruct (Add_point_like env origin (VObject (length h)) VUndefined h2
    ox oy (polar_x radians radius) (polar_y radians radius))
    as (r & h' & Hadd & Hnew & Hat).
  { eapply point_like_unchanged; [apply unchanged_app | done]. }
  { apply point_like_point, point_at_alloc. }
  exists r, h'. split; [done|].
  split; [eapply new_in_trans; [apply unchanged_app | done] | done].
Qed.

Lemma getPointFromAngle_run arc angle h :
  arc ≠ VUndefined → arc ≠ VNull →
  getPointFromAngle env arc angle h =
  arc_endpoint env (read_prop h arc "origin") (read_prop h arc "radius")
    angle h.
Proof.
  intros Hu Hn. unfold getPointFromAngle, arc_endpoint.
  rewrite (bind_returns _ _ _ (read_prop h arc "origin") h)
    by (by destruct arc).
  destruct (Angle_ToRadians env h angle) as [e|radians] eqn:Hr.
  - rewrite !(bind_throws _ _ _ e); [done | |]; unfold call; by rewrite Hr.
  - rewrite !(bind_returns (call _) _ _ radians h)
      by (unfold call; by rewrite Hr).
    by rewrite (bind_returns _ _ _ (read_prop h arc "radius") h)
      by (by destruct arc).
Qed.

Lemma FromArc_run arc h s h1 e h2 :
  arc ≠ VUndefined → arc ≠ VNull → in_heap h arc →
  arc_endpoint env (read_prop h arc "origin") (read_prop h arc "radius")
    (read_prop h arc "startAngle") h = Returns s h1 →
  arc_endpoint env (read_prop h arc "origin") (read_prop h arc "radius")
    (read_prop h arc "endAngle") h1 = Returns e h2 →
  FromArc env arc h =
  Returns (VObject (length h2)) (h2 ++ [array_object [s; e]]).
Proof.
  intros Hu Hn Hin Hs He.
  destruct (arc_endpoint_returns _ _ _ _ _ _ Hs) as (Hu1 & _).
  unfold FromArc.
  rewrite (bind_returns _ _ _ (read_prop h arc "startAngle") h)
    by (by destruct arc).
  rewrite (bind_returns _ _ _ s h1) by (by rewrite getPointFromAngle_run).
  rewrite (bind_returns _ _ _ (read_prop h arc "endAngle") h1).
  2: { rewrite <- (read_prop_in_heap h h1) by done. by destruct arc. }
  rewrite (bind_returns _ _ _ e h2); [done|].
  rewrite getPointFromAngle_run by done.
  by rewrite !(read_prop_in_heap h h1) by done.
Qed.

Lemma FromArc_throws_start arc h x :
  arc ≠ VUndefined → arc ≠ VNull →
  arc_endpoint env (read_prop h arc "origin") (read_prop h arc "radius")
    (read_prop h arc "startAngle") h = Throws x →
  FromArc env arc h = Throws x.
Proof.
  intros Hu Hn Hs. unfold FromArc.
  rewrite (bind_returns _ _ _ (read_prop h arc "startAngle") h)
    by (by destruct arc).
  apply bind_throws. by rewrite getPointFromAngle_run.
Qed.

Lemma FromArc_throws_end arc h s h1 x :
  arc ≠ VUndefined → arc ≠ VNull → in_heap h arc →
  arc_endpoint env (read_prop h arc "origin") (read_prop h arc "radius")
    (read_prop h arc "startAngle") h = Returns s h1 →
  arc_endpoint env (read_prop h arc "origin") (read_prop h arc "radius")
    (read_prop h arc "endAngle") h1 = Throws x →
  FromArc env arc h = Throws x.
Proof.
  intros Hu Hn Hin Hs He.
  destruct (arc_endpoint_returns _ _ _ _ _ _ Hs) as (Hu1 & _).
  unfold FromArc.
  rewrite (bind_returns _ _ _ (read_prop h arc "startAngle") h)
    by (by destruct arc).
  rewrite (bind_returns _ _ _ s h1) by (by rewrite getPointFromAngle_run).
  rewrite (bind_returns _ _ _ (read_prop h arc "endAngle") h1).
  2: { rewrite <- (read_prop_in_heap h h1) by done. by destruct arc. }
  apply bind_throws. rewrite getPointFromAngle_run by done.
  by rewrite !(read_prop_in_heap h h1) by done.
Qed.

End Polar.

(** ** Every operation *)

Section Operations.

Context (env : host).
Implicit Types (h : heap) (v w a b : value) (k : string) (l : loc)
  (op : operation).

Lemma new_in_has_xy h r h' : new_in h r h' → has_xy h' r.
Proof. by intros (_ & _ & ?). Qed.

(** The operations that make a Point return a new object and touch no
    other, objects converting as the environment says. *)
Lemma run_new_in op h :
  constructs op = true → admissible env h op →
  ∃ r h', run env op h = Returns r h' ∧ new_in h r h'.
Proof.
  intros Hc Hadm. destruct op; try done; simpl in *.
  - eexists _, _. split; [apply Zero_outcome|]. by eapply new_in_new_point.
  - destruct Hadm as [Hu Hn]. eexists _, _.
    split; [by apply Clone_outcome|]. by eapply new_in_new_point.
  - apply Add_general.
  - apply Add_general.
  - apply Scale_general.
  - apply Mirror_general.
  - destruct Hadm as ([current Hc'] & [distance Hd] & [turn Ht]).
    rewrite (Rotate_run _ _ _ _ _ _ _ _ Hc' Hd Ht).
    apply Rotate_spec_general.
  - eexists _, _. split; [apply FromPolar_outcome|]. by eapply new_in_new_point.
Qed.

Lemma FromArc_general arc h :
  admissible env h (OpFromArc arc) →
  ∃ r h', FromArc env arc h = Returns r h'
          ∧ result_shape (OpFromArc arc) h' r.
Proof.
  intros (Hu & Hn & Hin & Hs & He).
  destruct (Hs h) as [rs Hrs].
  destruct (arc_endpoint_general env (read_prop h arc "origin")
    (read_prop h arc "radius") _ _ _ Hrs) as (s & h1 & Hrun1 & Hnew1).
  destruct (He h1) as [re Hre].
  destruct (arc_endpoint_general env (read_prop h arc "origin")
    (read_prop h arc "radius") _ _ _ Hre) as (e & h2 & Hrun2 & Hnew2).
  rewrite (FromArc_run _ _ _ _ _ _ _ Hu Hn Hin Hrun1 Hrun2).
  eexists _, _. split; [done|]. exists s, e. split.
  { unfold array_elements. by rewrite list_lookup_middle. }
  destruct Hnew2 as (Hu2 & _ & Hxy2). split.
  - eapply has_xy_unchanged; [apply unchanged_app|].
    eapply has_xy_unchanged; [done|]. by eapply new_in_has_xy.
  - eapply has_xy_unchanged; [apply unchanged_app | done].
Qed.

Lemma well_formed_alloc h x y :
  well_formed (h ++ [point_object (VNumber (Fin x)) (VNumber (Fin y))])
    (VObject (length h)).
Proof. exists x, y. apply point_at_alloc. Qed.

Lemma mirrored_finite flag x : ∃ z, mirrored flag (Fin x) = Fin z.
Proof. unfold mirrored. destruct (ToBoolean _); by eexists. Qed.

Lemma finite_number_valid h v k :
  finite_number (read_prop h v k) →
  v ≠ VUndefined ∧ v ≠ VNull ∧ in_heap h v.
Proof.
  intros [x Hx]. destruct (read_prop_defined h v k) as (l & o & -> & Hl & _).
  { by rewrite Hx. }
  split; [done|]. split; [done|]. intros l' [= <-]. by eapply lookup_lt_Some.
Qed.

Lemma answers_primitive_answers (f : exn + value) :
  answers_primitive f → answers f.
Proof. intros (v & -> & _). by exists v. Qed.

Lemma plain_inputs_admissible op h :
  plain_inputs env h op → admissible env h op.
Proof.
  destruct op; simpl; try done.
  - intros (_ & Hc & Hd & Ht).
    split; [|split]; by apply answers_primitive_answers.
  - intros (Hu & Hn & Hin & _ & _ & Hs & He).
    split; [done|]. split; [done|]. split; [done|].
    split; intros h'; by apply answers_primitive_answers.
Qed.

Lemma PointShape_alloc h nx ny :
  PointShape (h ++ [point_object (VNumber nx) (VNumber ny)])
    (VObject (length h)).
Proof. exists nx, ny. apply point_at_alloc. Qed.

(** [Ensure] on a number: the origin, or the number twice. *)
Lemma Ensure_of_number n rest h :
  ∃ r h' nx ny, Ensure (VNumber n :: rest) h = Returns r h'
    ∧ point_at h' r nx ny
    ∧ (nx = Fin 0 ∨ nx = n) ∧ (ny = Fin 0 ∨ ny = n).
Proof.
  rewrite Ensure_outcome. unfold Ensure_rules, new_point, zero.
  change (index (VNumber n :: rest) 0) with (VNumber n).
  destruct (negb (ToBoolean _)).
  { eexists _, _, _, _. split; [done|]. split; [apply point_at_alloc|]. auto. }
  change (IsPoint h (VNumber n)) with false.
  change (array_of_two h (VNumber n)) with false. cbv iota.
  destruct (bool_decide _);
    (eexists _, _, _, _; split; [done|]; split; [apply point_at_alloc|]; auto).
Qed.

Lemma is_number_VNumber v : is_number v = true → ∃ n, v = VNumber n.
Proof. destruct v; try done. by eexists. Qed.

Lemma FromArc_numeric arc h :
  numeric_inputs env h (OpFromArc arc) →
  ∃ r h', FromArc env arc h = Returns r h'
          ∧ numeric_output (OpFromArc arc) h' r.
Proof.
  intros ((ox & oy & Ho) & Hr & Hs & He).
  apply is_number_VNumber in Hr as [radius Hr].
  destruct (read_prop_defined h arc "radius") as (l & o & -> & Hl & _).
  { by rewrite Hr. }
  assert (in_heap h (VObject l)) as Hin.
  { intros l' [= <-]. by eapply lookup_lt_Some. }
  destruct (Hs h) as [rs Hrs].
  destruct (arc_endpoint_numbers env _ radius _ _ _ _ _ Hrs Ho)
    as (s & h1 & Hrun1 & (Hu1 & _) & Hat1).
  destruct (He h1) as [re Hre].
  destruct (arc_endpoint_numbers env _ radius _ _ _ _ _ Hre
    (point_like_unchanged _ _ _ _ _ Hu1 Ho))
    as (e & h2 & Hrun2 & (Hu2 & _) & Hat2).
  rewrite <- Hr in Hrun1, Hrun2.
  rewrite (FromArc_run env (VObject l) h s h1 e h2) by done.
  eexists _, _. split; [done|]. exists s, e. split.
  { unfold array_elements. by rewrite list_lookup_middle. }
  split; eexists _, _.
  - eapply point_at_unchanged; [apply unchanged_app|].
    eapply point_at_unchanged; [done|]. exact Hat1.
  - eapply point_at_unchanged; [apply unchanged_app|]. exact Hat2.
Qed.

(** Numbers in, numbers out. *)
Lemma run_numeric op h :
  numeric_inputs env h op →
  ∃ r h', run env op h = Returns r h' ∧ numeric_output op h' r.
Proof.
  destruct op; simpl.
  - intros _. eexists _, _.
    split; [apply Zero_outcome | apply PointShape_alloc].
  - intros [(nx & ny & Hl) | Hn].
    + destruct arguments as [|v rest].
      * eexists _, _. split; [done | apply PointShape_alloc].
      * destruct (Ensure_point_like _ _ rest _ _ Hl)
          as (r & h' & Hrun & _ & Hat & _).
        exists r, h'. split; [done|]. by exists nx, ny.
    + destruct arguments as [|v rest]; [done|].
      change (index (v :: rest) 0) with v in Hn.
      apply is_number_VNumber in Hn as [n ->].
      destruct (Ensure_of_number n rest h)
        as (r & h' & nx & ny & Hrun & Hat & _).
      exists r, h'. split; [done|]. by exists nx, ny.
  - intros (nx & ny & Hx & Hy).
    destruct (point_at_valid h point nx ny) as (l & -> & _); [done|].
    rewrite Clone_outcome, Hx, Hy by done.
    eexists _, _. split; [done | apply PointShape_alloc].
  - intros [(ax & ay & Ha) (bx & by_ & Hb)].
    destruct (Add_point_like env _ _ subtract _ _ _ _ _ Ha Hb)
      as (r & h' & Hrun & _ & Hat).
    exists r, h'. split; [done|]. by eexists _, _.
  - intros [(ax & ay & Ha) (bx & by_ & Hb)].
    destruct (Add_point_like env _ _ (VBool true) _ _ _ _ _ Ha Hb)
      as (r & h' & Hrun & _ & Hat).
    exists r, h'. split; [done|]. by eexists _, _.
  - intros [(x & y & Hp) Hs]. apply is_number_VNumber in Hs as [s ->].
    destruct (Scale_point_like env _ s _ _ _ Hp)
      as (r & h' & Hrun & _ & Hat).
    exists r, h'. split; [done|]. by eexists _, _.
  - intros (x & y & Hp).
    destruct (Mirror_point_like env _ mirrorX mirrorY _ _ _ Hp)
      as (r & h' & Hrun & _ & Hat).
    exists r, h'. split; [done|]. by eexists _, _.
  - intros ((ox & oy & Ho) & [current Hc] & [distance Hd] & [turn Ht]).
    rewrite (Rotate_run _ _ _ _ _ _ _ _ Hc Hd Ht).
    destruct (Rotate_spec_numbers env current distance turn _ _ _ _ Ho)
      as (r & h' & Hrun & _ & Hat).
    exists r, h'. split; [done|]. by eexists _, _.
  - intros [Ha Hr]. apply is_number_VNumber in Ha as [t ->].
    apply is_number_VNumber in Hr as [d ->]. rewrite FromPolar_numbers.
    eexists _, _. split; [done | apply PointShape_alloc].
  - apply FromArc_numeric.
Qed.

(** Where nothing is computed, finite coordinates stay finite. *)
Lemma run_copies_finite op h :
  copies op = true → well_formed_inputs env h op →
  ∃ r h', run env op h = Returns r h' ∧ well_formed_output op h' r.
Proof.
  destruct op; try done; simpl; intros _.
  - intros _. eexists _, _.
    split; [apply Zero_outcome | apply well_formed_alloc].
  - intros [(x & y & Hl) | [x Hx]].
    + destruct arguments as [|v rest].
      * eexists _, _. split; [done | apply well_formed_alloc].
      * destruct (Ensure_point_like _ _ rest _ _ Hl)
          as (r & h' & Hrun & _ & Hat & _).
        exists r, h'. split; [done|]. by exists x, y.
    + destruct arguments as [|v rest]; [done|].
      change (index (v :: rest) 0) with v in Hx. subst v.
      destruct (Ensure_of_number (Fin x) rest h)
        as (r & h' & nx & ny & Hrun & Hat & Hnx & Hny).
      exists r, h'. split; [done|].
      destruct Hnx as [-> | ->], Hny as [-> | ->]; by eexists _, _.
  - intros (x & y & Hx & Hy).
    destruct (point_at_valid h point (Fin x) (Fin y)) as (l & -> & _); [done|].
    rewrite Clone_outcome, Hx, Hy by done.
    eexists _, _. split; [done | apply well_formed_alloc].
  - intros (x & y & Hp).
    destruct (Mirror_point_like env _ mirrorX mirrorY _ _ _ Hp)
      as (r & h' & Hrun & _ & Hat).
    destruct (mirrored_finite mirrorX x) as [x' Hx].
    destruct (mirrored_finite mirrorY y) as [y' Hy].
    rewrite Hx, Hy in Hat. by exists r, h'; split; [|exists x', y'].
Qed.

Lemma absent_or_pair_point_like h item nx ny :
  absent_or_pair h item nx ny → point_like h item nx ny.
Proof.
  intros [H | (l & -> & Hl)]; [by left|]. right; right. split.
  - unfold IsPoint, read_prop. by rewrite Hl.
  - exists [VNumber nx; VNumber ny]. unfold array_elements. rewrite Hl.
    repeat split; simpl; lia.
Qed.

End Operations.

(** * The claims of the specification *)

(** C1, counterexample: on the Array ["a", "b"], which is no sequence of
    numbers, the rules with the third one as the spec words it fall through
    to the last and give the origin; the code takes the two elements. *)
Lemma Ensure_rules_counterexample :
  let h := [array_object [VString "a"; VString "b"]] in
  Ensure [VObject 0] h = new_point h (VString "a") (VString "b")
  ∧ Ensure_rules sequence_of_two_numbers [VObject 0] h = new_point h zero zero
  ∧ Ensure [VObject 0] h ≠ Ensure_rules sequence_of_two_numbers [VObject 0] h.
Proof.
  split; [reflexivity|]. split; [reflexivity|].
  intros H. apply (f_equal (λ c, match c with
    | Returns r h' => read_prop h' r "x"
    | Throws _ => VUndefined
    end)) in H.
  discriminate H.
Qed.

(** C1, amended: [Ensure] follows the five rules in their order of
    precedence, the third one applying to every Array of more than one
    element, whatever the elements are; so it follows the rules as the spec
    words them wherever the two tests of the third rule agree. *)
Theorem Ensure_five_rules (arguments : list value) (h : heap) :
  Ensure arguments h = Ensure_rules array_of_two arguments h
  ∧ (sequence_of_two_numbers h (index arguments 0)
       = array_of_two h (index arguments 0) →
     Ensure arguments h = Ensure_rules sequence_of_two_numbers arguments h).
Proof.
  split; [apply Ensure_outcome|].
  intros Heq. rewrite Ensure_outcome. unfold Ensure_rules. by rewrite Heq.
Qed.

(** On [[3, 4, 999]] the two tests agree and the third element is ignored. *)
Lemma Ensure_five_rules_witness :
  let h :=
    [array_object [VNumber (Fin 3); VNumber (Fin 4); VNumber (Fin 999)]] in
  Ensure [VObject 0] h = new_point h (VNumber (Fin 3)) (VNumber (Fin 4)).
Proof.
  intros h.
  rewrite (proj2 (Ensure_five_rules [VObject 0] h)); reflexivity.
Defined.




(** In binary64 a product of finite numbers need not be finite:
    [Scale({x: 2^1023, y: 1}, 2)] has [x = Infinity]. *)
Lemma Scale64_overflows :
  Scale64 (Point64 0x1p1023 1) 2 = Point64 infinity 2.
Proof. reflexivity. Qed.




(** C4: given a value of the Point shape, [Ensure] returns that very
    reference, and the heap as it was: no copy is made. *)
Theorem Ensure_returns_its_argument (h : heap) (item : value)
    (rest : list value) :
  PointShape h item → Ensure (item :: rest) h = Returns item h.
Proof.
  intros Hp. rewrite Ensure_outcome. unfold Ensure_rules.
  change (index (item :: rest) 0) with item.
  destruct Hp as (nx & ny & Hat).
  destruct (point_at_valid _ _ _ _ Hat) as (l & -> & _).
  by rewrite (proj2 (IsPoint_PointShape h (VObject l))) by (by exists nx, ny).
Qed.

(** The sample Point comes back as it is. *)
Lemma Ensure_returns_its_argument_witness :
  PointShape sample_heap (VObject 0)
  ∧ Ensure [VObject 0] sample_heap = Returns (VObject 0) sample_heap.
Proof.
  assert (PointShape sample_heap (VObject 0)) as Hp.
  { exists (Fin 1), (Fin 2). split; reflexivity. }
  split; [exact Hp|].
  exact (Ensure_returns_its_argument sample_heap (VObject 0) [] Hp).
Defined.



(** C6: once [FromPointToRadians(point, origin)], [PointDistance(origin,
    point)] and [ToRadians(angle)] have returned, [Rotate] is the algorithm
    of the spec: the polar offset at the sum of the two angles and at that
    distance, added to the origin with [Add]. When the three results are
    numbers and the origin reads as a Point, this is the new Point at
    [origin + distance * (cos, sin) (current + turn)]. *)
Theorem Rotate_algorithm (env : host)
    (point angleInDegrees rotationOrigin : value) (h : heap)
    (current distance turn : value) :
  Angle_FromPointToRadians env h point rotationOrigin = inr current →
  Measure_PointDistance env h rotationOrigin point = inr distance →
  Angle_ToRadians env h angleInDegrees = inr turn →
  Rotate env point angleInDegrees rotationOrigin h =
    (offset ← FromPolar env (js_add env h current turn) distance;
     Add env rotationOrigin offset VUndefined) h
  ∧ ∀ t d r ox oy,
      current = VNumber t → distance = VNumber d → turn = VNumber r →
      point_like h rotationOrigin ox oy →
      ∃ p h', Rotate env point angleInDegrees rotationOrigin h = Returns p h'
        ∧ point_at h' p (num_add ox (num_mul d (num_cos (num_add t r))))
                        (num_add oy (num_mul d (num_sin (num_add t r)))).
Proof.
  intros Hc Hd Ht. rewrite (Rotate_run env _ _ _ _ _ _ _ Hc Hd Ht).
  split; [done|]. intros t d r ox oy -> -> -> Ho.
  destruct (Rotate_spec_numbers env t d r _ _ _ _ Ho)
    as (p & h' & Hrun & _ & Hat).
  by exists p, h'.
Qed.

(** A quarter turn of the sample Point about itself. *)
Lemma Rotate_algorithm_witness :
  Rotate sample_host (VObject 0) (VNumber (Fin 90)) (VObject 0) sample_heap =
  (offset ← FromPolar sample_host
              (js_add sample_host sample_heap (VNumber (Fin 0))
                 (VNumber (Fin (90 * PI / 180))))
              (VNumber (Fin 1));
   Add sample_host (VObject 0) offset VUndefined) sample_heap.
Proof.
  exact (proj1 (Rotate_algorithm sample_host (VObject 0) (VNumber (Fin 90))
    (VObject 0) sample_heap (VNumber (Fin 0)) (VNumber (Fin 1))
    (VNumber (Fin (90 * PI / 180))) eq_refl eq_refl eq_refl)).
Defined.

(** C7: [Subtract(a, b)] is [Add(a, b, true)], on all values and in every
    heap; so on Points and numeric sequences it returns the new Point of
    the differences of the coordinates. *)
Theorem Subtract_shorthand (env : host) (a b : value) (h : heap) :
  Subtract env a b h = Add env a b (VBool true) h
  ∧ ∀ ax ay bx by_,
      point_like h a ax ay → point_like h b bx by_ →
      ∃ r h', Subtract env a b h = Returns r h'
              ∧ point_at h' r (num_sub ax bx) (num_sub ay by_).
Proof.
  split; [reflexivity|]. intros ax ay bx by_ Ha Hb.
  destruct (Add_point_like env a b (VBool true) h _ _ _ _ Ha Hb)
    as (r & h' & Hrun & _ & Hat).
  by exists r, h'.
Qed.

(** The sample Point minus the sequence [[3, 4]]. *)
Lemma Subtract_shorthand_witness :
  ∃ r h', Subtract sample_host (VObject 0) (VObject 1) sample_heap
            = Returns r h'
          ∧ point_at h' r (num_sub (Fin 1) (Fin 3)) (num_sub (Fin 2) (Fin 4)).
Proof.
  apply (proj2 (Subtract_shorthand sample_host (VObject 0) (VObject 1)
    sample_heap)).
  - right; left. split; reflexivity.
  - right; right. split; [reflexivity|].
    exists [VNumber (Fin 3); VNumber (Fin 4)].
    split; [reflexivity|]. split; [simpl; lia|]. split; reflexivity.
Defined.




(** C9: [FromArc] is the new Array of two elements, first the end point
    for [startAngle] and then the one for [endAngle], each of them
    [Add(arc.origin, FromPolar(ToRadians(angle), arc.radius))], computed in
    that order; the fields of the arc are taken as they are, without any
    check on the angles or on the radius. *)
Theorem FromArc_endpoints (env : host) (arc : value) (h : heap) :
  arc ≠ VUndefined → arc ≠ VNull → in_heap h arc →
  FromArc env arc h =
  (s ← arc_endpoint env (read_prop h arc "origin") (read_prop h arc "radius")
         (read_prop h arc "startAngle");
   e ← arc_endpoint env (read_prop h arc "origin") (read_prop h arc "radius")
         (read_prop h arc "endAngle");
   alloc (array_object [s; e])) h.
Proof.
  intros Hu Hn Hin.
  destruct (arc_endpoint env (read_prop h arc "origin")
    (read_prop h arc "radius") (read_prop h arc "startAngle") h)
    as [s h1|x] eqn:Hs.
  - rewrite (bind_returns _ _ _ _ _ Hs).
    destruct (arc_endpoint env (read_prop h arc "origin")
      (read_prop h arc "radius") (read_prop h arc "endAngle") h1)
      as [e h2|x] eqn:He.
    + rewrite (bind_returns _ _ _ _ _ He).
      by apply FromArc_run with h1.
    + rewrite (bind_throws _ _ _ _ He).
      by apply FromArc_throws_end with s h1.
  - rewrite (bind_throws _ _ _ _ Hs). by apply FromArc_throws_start.
Qed.

(** The sample arc: origin the sample Point, radius 5, from 0 to 90. *)
Lemma FromArc_endpoints_witness :
  FromArc sample_host (VObject 2) sample_heap =
  (s ← arc_endpoint sample_host (VObject 0) (VNumber (Fin 5))
         (VNumber (Fin 0));
   e ← arc_endpoint sample_host (VObject 0) (VNumber (Fin 5))
         (VNumber (Fin 90));
   alloc (array_object [s; e])) sample_heap.
Proof.
  apply (FromArc_endpoints sample_host (VObject 2) sample_heap).
  - discriminate.
  - discriminate.
  - intros l [= <-]. simpl. lia.
Defined.



(** * Further properties of the module *)

(** ** Arithmetic of numbers *)

Section Numbers.

Implicit Types (n m : number) (x y : R).

Lemma Rsign_pos x : (0 < x)%R → Rsign x = Positive.
Proof.
  intros Hx. unfold Rsign.
  destruct (total_order_T x 0) as [[Hlt | Heq] | Hgt]; [lra | lra | done].
Qed.

Lemma Rsign_neg x : (x < 0)%R → Rsign x = Negative.
Proof.
  intros Hx. unfold Rsign.
  destruct (total_order_T x 0) as [[Hlt | Heq] | Hgt]; [done | lra | lra].
Qed.

Lemma num_neg_involutive n : num_neg (num_neg n) = n.
Proof. destruct n; simpl; try done. f_equal. lra. Qed.

Lemma num_add_comm n m : num_add n m = num_add m n.
Proof. destruct n, m; simpl; try done. f_equal. lra. Qed.

Lemma num_add_0_r n : num_add n (Fin 0) = n.
Proof. destruct n; simpl; try done. f_equal. lra. Qed.

Lemma num_sub_0_r n : num_sub n (Fin 0) = n.
Proof.
  unfold num_sub. simpl. replace (- 0)%R with 0%R by lra. apply num_add_0_r.
Qed.

Lemma Add_num_0_r subtract n : Add_num subtract n (Fin 0) = n.
Proof.
  unfold Add_num.
  destruct (ToBoolean _); [apply num_sub_0_r | apply num_add_0_r].
Qed.

Lemma num_mul_1_r n : num_mul n (Fin 1) = n.
Proof.
  destruct n; simpl; try done.
  - f_equal. lra.
  - by rewrite Rsign_pos by lra.
  - by rewrite Rsign_pos by lra.
Qed.

Lemma num_mul_opp1_r n : num_mul n (Fin (-1)) = num_neg n.
Proof.
  destruct n; simpl; try done.
  - f_equal. lra.
  - by rewrite Rsign_neg by lra.
  - by rewrite Rsign_neg by lra.
Qed.

Lemma mirrored_involutive flag n : mirrored flag (mirrored flag n) = n.
Proof.
  unfold mirrored. destruct (ToBoolean flag); [apply num_neg_involutive | done].
Qed.

Lemma ToBoolean_default_arg s :
  ToBoolean (default_arg s (VBool false)) = ToBoolean s.
Proof. by destruct s. Qed.

End Numbers.

(** ** Construction and coercion, continued *)

(** X1: [Clone] throws a TypeError exactly on [undefined] and [null]; on
    any other value it returns a new object that holds whatever the [x] and
    [y] of the value are, [undefined] where there is none, and touches
    nothing. *)
Theorem Clone_copies_or_throws (point : value) (h : heap) :
  match Clone point h with
  | Throws e => e = TypeError ∧ (point = VUndefined ∨ point = VNull)
  | Returns r h' =>
      point ≠ VUndefined ∧ point ≠ VNull
      ∧ unchanged h h' ∧ created h r h'
      ∧ read_prop h' r "x" = read_prop h point "x"
      ∧ read_prop h' r "y" = read_prop h point "y"
  end.
Proof.
  destruct point as [| | b | n | s | l];
    try (split; [reflexivity | auto]; fail);
    (rewrite Clone_outcome by done; unfold new_point;
     split; [done|]; split; [done|]; split; [apply unchanged_app|]; split;
     [exists (length h); split; [done|]; rewrite length_app; simpl; lia
     | by rewrite !read_prop_alloc]).
Qed.

(** The sample Point is copied; [null] is refused. *)
Lemma Clone_copies_or_throws_witness :
  Clone VNull sample_heap = Throws TypeError
  ∧ ∃ r h', Clone (VObject 0) sample_heap = Returns r h'
            ∧ read_prop h' r "x" = VNumber (Fin 1).
Proof.
  split; [reflexivity|].
  pose proof (Clone_copies_or_throws (VObject 0) sample_heap) as H.
  destruct (Clone (VObject 0) sample_heap) as [r h'|e] eqn:Hc.
  - exists r, h'. split; [reflexivity|].
    destruct H as (_ & _ & _ & _ & Hx & _). rewrite Hx. reflexivity.
  - destruct H as [_ [H | H]]; discriminate H.
Defined.

Lemma Ensure_of_point h item rest :
  PointShape h item → Ensure (item :: rest) h = Returns item h.
Proof.
  intros (nx & ny & Hat). rewrite Ensure_outcome. unfold Ensure_rules.
  change (index (item :: rest) 0) with item.
  destruct (point_at_valid _ _ _ _ Hat) as (l & -> & _).
  by rewrite (proj2 (IsPoint_PointShape h (VObject l))) by (by exists nx, ny).
Qed.

(** X2: whatever it is given, [Ensure] changes no object: it either hands
    back its first argument and leaves the heap as it is, or creates
    exactly one object and returns it. *)
Theorem Ensure_creates_at_most_one (arguments : list value) (h : heap) :
  ∃ r h', Ensure arguments h = Returns r h'
    ∧ unchanged h h'
    ∧ ((r = index arguments 0 ∧ h' = h)
       ∨ (created h r h' ∧ length h' = S (length h))).
Proof.
  destruct (Ensure_general arguments h) as (r & h' & Hrun & Hu & _ & Hcase).
  exists r, h'. split; [done|]. split; [done|].
  destruct Hcase as [(-> & -> & _) | [-> Hlen]]; [by left|]. right.
  split; [|done]. exists (length h). split; [done|]. lia.
Qed.

(** X3: [Ensure] is idempotent on what it reads as a Point (a Point, a
    sequence that starts with two numbers, a falsy value): applied to its
    own result it returns that same reference and creates nothing. *)
Theorem Ensure_idempotent (h : heap) (v : value) (rest : list value)
    (nx ny : number) :
  point_like h v nx ny →
  ∃ e h1, Ensure (v :: rest) h = Returns e h1
          ∧ Ensure [e] h1 = Returns e h1.
Proof.
  intros Hv.
  destruct (Ensure_point_like _ _ rest _ _ Hv) as (e & h1 & Hrun & _ & Hat & _).
  exists e, h1. split; [done|]. apply Ensure_of_point. by exists nx, ny.
Qed.

(** On the sequence [[3, 4]] of the sample heap. *)
Lemma Ensure_idempotent_witness :
  ∃ e h1, Ensure [VObject 1] sample_heap = Returns e h1
          ∧ Ensure [e] h1 = Returns e h1.
Proof.
  apply (Ensure_idempotent sample_heap (VObject 1) [] (Fin 3) (Fin 4)).
  right; right. split; [reflexivity|].
  exists [VNumber (Fin 3); VNumber (Fin 4)].
  split; [reflexivity|]. split; [simpl; lia|]. split; reflexivity.
Defined.

(** X4: of a second argument and the following ones [Ensure] sees only
    that they are there: their values never reach the result. Two calls
    with the same first argument and any other arguments return the
    same. *)
Theorem Ensure_ignores_second_value (item a a' : value)
    (rest rest' : list value) (h : heap) :
  Ensure (item :: a :: rest) h = Ensure (item :: a' :: rest') h.
Proof.
  rewrite !Ensure_outcome. unfold Ensure_rules.
  change (index (item :: a :: rest) 0) with item.
  change (index (item :: a' :: rest') 0) with item.
  rewrite !bool_decide_true by (simpl; lia). done.
Qed.

(** X5: passed alone, a value that is not an object (a number, a string,
    a boolean) and an Array of fewer than two elements give the origin:
    the lone element of a one-element Array is dropped. *)
Theorem Ensure_lone_fallback (item : value) (h : heap) :
  (∀ l, item ≠ VObject l)
  ∨ (∃ l es, item = VObject l ∧ h !! l = Some (array_object es)
             ∧ length es ≤ 1) →
  Ensure [item] h = new_point h zero zero.
Proof.
  intros Hitem. rewrite Ensure_outcome. unfold Ensure_rules.
  change (index [item] 0) with item.
  destruct (negb (ToBoolean item)); [done|].
  assert (IsPoint h item = false ∧ array_of_two h item = false) as [-> ->].
  { destruct Hitem as [Hprim | (l & es & -> & Hl & Hlen)].
    - destruct item; try done. by destruct (Hprim l).
    - unfold IsPoint, array_of_two, array_elements, read_prop.
      rewrite Hl. simpl. split; [done|]. apply bool_decide_false. lia. }
  done.
Qed.

(** The Array [[7]] alone gives the origin. *)
Lemma Ensure_lone_fallback_witness :
  Ensure [VObject 0] [array_object [VNumber (Fin 7)]]
  = new_point [array_object [VNumber (Fin 7)]] zero zero.
Proof.
  apply Ensure_lone_fallback. right.
  exists 0, [VNumber (Fin 7)]. split; [reflexivity|].
  split; [reflexivity | simpl; lia].
Defined.

(** ** Arithmetic, continued *)

Section MoreArithmetic.

Context (env : host).
Implicit Types (h : heap) (v a b p : value).

Lemma Add_num_undefined n m : Add_num VUndefined n m = num_add n m.
Proof. done. Qed.

Lemma new_in_unchanged h r h' : new_in h r h' → unchanged h h'.
Proof. by intros (? & _). Qed.

Lemma point_like_falsy h v :
  ToBoolean v = false → point_like h v (Fin 0) (Fin 0).
Proof. intros Hv. by left. Qed.

End MoreArithmetic.

(** X6: the third argument of [Add] counts by its truthiness only: with a
    truthy one [Add] is [Subtract], with a falsy or missing one it is the
    plain sum, on all arguments. *)
Theorem Add_flag_truthiness (env : host) (a b subtract : value) (h : heap) :
  Add env a b subtract h =
  if ToBoolean subtract then Subtract env a b h
  else Add env a b VUndefined h.
Proof.
  unfold Subtract, Add. rewrite ToBoolean_default_arg.
  by destruct (ToBoolean subtract).
Qed.

(** X7: [Add] is commutative on what [Ensure] reads as Points: the two
    orders return Points with the same coordinates, the non-finite ones
    included. *)
Theorem Add_commutes (env : host) (a b : value) (h : heap)
    (ax ay bx by_ : number) :
  point_like h a ax ay → point_like h b bx by_ →
  same_point (Add env a b VUndefined h) (Add env b a VUndefined h).
Proof.
  intros Ha Hb.
  destruct (Add_point_like env a b VUndefined h _ _ _ _ Ha Hb)
    as (r1 & h1 & Hrun1 & _ & Hat1).
  destruct (Add_point_like env b a VUndefined h _ _ _ _ Hb Ha)
    as (r2 & h2 & Hrun2 & _ & Hat2).
  exists r1, h1, r2, h2, (num_add ax bx), (num_add ay by_).
  split; [done|]. split; [done|]. split; [done|].
  rewrite !Add_num_undefined in Hat2.
  by rewrite (num_add_comm ax bx), (num_add_comm ay by_).
Qed.

(** The sample Point and the sequence [[3, 4]], in both orders. *)
Lemma Add_commutes_witness :
  same_point (Add sample_host (VObject 0) (VObject 1) VUndefined sample_heap)
             (Add sample_host (VObject 1) (VObject 0) VUndefined sample_heap).
Proof.
  apply (Add_commutes sample_host (VObject 0) (VObject 1) sample_heap
    (Fin 1) (Fin 2) (Fin 3) (Fin 4)).
  - right; left. split; reflexivity.
  - right; right. split; [reflexivity|].
    exists [VNumber (Fin 3); VNumber (Fin 4)].
    split; [reflexivity|]. split; [simpl; lia|]. split; reflexivity.
Defined.

(** X8: adding or subtracting an absent or falsy second argument copies the
    first: the new Point has the coordinates of [a], whatever numbers they
    are. *)
Theorem Add_absent (env : host) (a b subtract : value) (h : heap)
    (ax ay : number) :
  point_like h a ax ay → ToBoolean b = false →
  ∃ r h', Add env a b subtract h = Returns r h'
          ∧ created h r h' ∧ point_at h' r ax ay.
Proof.
  intros Ha Hb.
  destruct (Add_point_like env a b subtract h _ _ _ _ Ha
    (point_like_falsy h b Hb)) as (r & h' & Hrun & (_ & Hcr & _) & Hat).
  exists r, h'. split; [done|]. split; [done|].
  by rewrite !Add_num_0_r in Hat.
Qed.

(** The sample Point plus nothing. *)
Lemma Add_absent_witness :
  ∃ r h', Add sample_host (VObject 0) VUndefined VUndefined sample_heap
            = Returns r h'
          ∧ created sample_heap r h' ∧ point_at h' r (Fin 1) (Fin 2).
Proof.
  apply (Add_absent sample_host (VObject 0) VUndefined VUndefined sample_heap).
  - right; left. split; reflexivity.
  - reflexivity.
Defined.

(** ** Transforms, continued *)

(** X10: mirroring twice with the same flags gives back the coordinates,
    whatever numbers they are and whatever the flags. *)
Theorem Mirror_involutive (env : host) (p mirrorX mirrorY : value)
    (h : heap) (nx ny : number) :
  point_like h p nx ny →
  ∃ r h', (m ← Mirror env p mirrorX mirrorY;
           Mirror env m mirrorX mirrorY) h = Returns r h'
          ∧ point_at h' r nx ny.
Proof.
  intros Hp.
  destruct (Mirror_point_like env p mirrorX mirrorY h _ _ Hp)
    as (m & h1 & Hrun1 & _ & Hm).
  destruct (Mirror_point_like env m mirrorX mirrorY h1 _ _
    (point_like_point _ _ _ _ Hm)) as (r & h' & Hrun2 & _ & Hr).
  exists r, h'. split; [by rewrite (bind_returns _ _ _ _ _ Hrun1)|].
  by rewrite !mirrored_involutive in Hr.
Qed.

(** The sample Point mirrored twice on both axes. *)
Lemma Mirror_involutive_witness :
  ∃ r h', (m ← Mirror sample_host (VObject 0) (VBool true) (VBool true);
           Mirror sample_host m (VBool true) (VBool true)) sample_heap
            = Returns r h'
          ∧ point_at h' r (Fin 1) (Fin 2).
Proof.
  apply (Mirror_involutive sample_host (VObject 0)).
  right; left. split; reflexivity.
Defined.

(** X11: mirroring on both axes is scaling by -1: the two calls return
    Points with the same coordinates, the non-finite ones included. *)
Theorem Mirror_both_is_Scale_opp (env : host) (p mirrorX mirrorY : value)
    (h : heap) (nx ny : number) :
  point_like h p nx ny →
  ToBoolean mirrorX = true → ToBoolean mirrorY = true →
  same_point (Mirror env p mirrorX mirrorY h)
             (Scale env p (VNumber (Fin (-1))) h).
Proof.
  intros Hp Hx Hy.
  destruct (Mirror_point_like env p mirrorX mirrorY h _ _ Hp)
    as (r1 & h1 & Hrun1 & _ & Hat1).
  destruct (Scale_point_like env p (Fin (-1)) h _ _ Hp)
    as (r2 & h2 & Hrun2 & _ & Hat2).
  exists r1, h1, r2, h2, (num_neg nx), (num_neg ny).
  split; [done|]. split; [done|].
  unfold mirrored in Hat1. rewrite Hx, Hy in Hat1.
  by rewrite !num_mul_opp1_r in Hat2.
Qed.

(** The sample Point, mirrored and scaled. *)
Lemma Mirror_both_is_Scale_opp_witness :
  same_point
    (Mirror sample_host (VObject 0) (VBool true) (VNumber (Fin 1))
       sample_heap)
    (Scale sample_host (VObject 0) (VNumber (Fin (-1))) sample_heap).
Proof.
  apply (Mirror_both_is_Scale_opp sample_host (VObject 0) (VBool true)
    (VNumber (Fin 1)) sample_heap (Fin 1) (Fin 2)).
  - right; left. split; reflexivity.
  - reflexivity.
  - simpl. destruct (Req_dec_T 1 0) as [H | H]; [lra | reflexivity].
Defined.

(** X12: scaling by 1 copies the Point, whatever numbers its coordinates
    are; scaling by 0 gives the origin when the coordinates are finite. *)
Theorem Scale_unit_and_zero (env : host) (p : value) (h : heap)
    (nx ny : number) :
  point_like h p nx ny →
  (∃ r h', Scale env p (VNumber (Fin 1)) h = Returns r h'
           ∧ point_at h' r nx ny)
  ∧ (∀ x y : R, nx = Fin x → ny = Fin y →
     ∃ r h', Scale env p (VNumber (Fin 0)) h = Returns r h'
             ∧ point_at h' r (Fin 0) (Fin 0)).
Proof.
  intros Hp. split.
  - destruct (Scale_point_like env p (Fin 1) h _ _ Hp)
      as (r & h' & Hrun & _ & Hat).
    exists r, h'. split; [done|]. by rewrite !num_mul_1_r in Hat.
  - intros x y -> ->.
    destruct (Scale_point_like env p (Fin 0) h _ _ Hp)
      as (r & h' & Hrun & _ & Hat).
    exists r, h'. split; [done|]. simpl in Hat.
    by replace (x * 0)%R with 0%R in Hat by lra;
       replace (y * 0)%R with 0%R in Hat by lra.
Qed.

(** The sample Point scaled by 1. *)
Lemma Scale_unit_and_zero_witness :
  ∃ r h', Scale sample_host (VObject 0) (VNumber (Fin 1)) sample_heap
            = Returns r h'
          ∧ point_at h' r (Fin 1) (Fin 2).
Proof.
  apply (proj1 (Scale_unit_and_zero sample_host (VObject 0) sample_heap
    (Fin 1) (Fin 2) ltac:(right; left; split; reflexivity))).
Defined.

(** ** Rotation, continued *)



(** ** Arcs, continued *)

Section MoreArcs.

Context (env : host).

Lemma arc_endpoint_throws origin radius angle h e :
  arc_endpoint env origin radius angle h = Throws e →
  Angle_ToRadians env h angle = inl e.
Proof.
  intros Hthrow.
  destruct (Angle_ToRadians env h angle) as [e'|radians] eqn:Hr.
  - unfold arc_endpoint in Hthrow.
    rewrite (bind_throws _ _ _ e') in Hthrow by (unfold call; by rewrite Hr).
    congruence.
  - destruct (arc_endpoint_general env origin radius angle h radians Hr)
      as (r & h' & Hrun & _).
    congruence.
Qed.

End MoreArcs.






